(** * EnergyGrid client: batching, signing, rate limiting and retrying

    A shallow embedding of [client/client.js] and the properties of its
    cooperating parts: the signer [generateSignature], the batcher
    [createBatches], the request executor [makeRequest], the rate-limited
    queue [RateLimitedQueue.execute] and the driver [fetchAllDeviceData].

    JavaScript numbers that the client manipulates (millisecond clocks,
    counters, indices) are integers far below 2^53 and are modelled as [Z].
    Strings are byte strings ([string]); every string the client hashes is
    ASCII. *)

From Stdlib Require Import ZArith List String Ascii Bool Lia Arith.
From Stdlib Require Import DecimalString DecimalZ DecimalNat.
Import ListNotations.

Local Open Scope string_scope.
Local Open Scope list_scope.
Local Open Scope Z_scope.

(* ================================================================== *)
(** ** The digest used by [crypto.createHash('md5')]                    *)
(* ================================================================== *)

(** Node's [crypto] module is not part of the repository; the digest it
    computes is MD5 as published in RFC 1321, transcribed here on 32-bit
    words held in [Z] with the wrap-around written out. *)
Module MD5.

Definition w32 (x : Z) : Z := x mod 4294967296.

Definition add32 (x y : Z) : Z := w32 (x + y).

Definition not32 (x : Z) : Z := 4294967295 - x.

Definition rotl32 (x : Z) (n : Z) : Z :=
  Z.lor (w32 (Z.shiftl x n)) (Z.shiftr x (32 - n)).

Definition shifts : list Z :=
  [ 7; 12; 17; 22; 7; 12; 17; 22; 7; 12; 17; 22; 7; 12; 17; 22;
    5;  9; 14; 20; 5;  9; 14; 20; 5;  9; 14; 20; 5;  9; 14; 20;
    4; 11; 16; 23; 4; 11; 16; 23; 4; 11; 16; 23; 4; 11; 16; 23;
    6; 10; 15; 21; 6; 10; 15; 21; 6; 10; 15; 21; 6; 10; 15; 21 ].

Definition sines : list Z :=
  [ 0xd76aa478; 0xe8c7b756; 0x242070db; 0xc1bdceee;
    0xf57c0faf; 0x4787c62a; 0xa8304613; 0xfd469501;
    0x698098d8; 0x8b44f7af; 0xffff5bb1; 0x895cd7be;
    0x6b901122; 0xfd987193; 0xa679438e; 0x49b40821;
    0xf61e2562; 0xc040b340; 0x265e5a51; 0xe9b6c7aa;
    0xd62f105d; 0x02441453; 0xd8a1e681; 0xe7d3fbc8;
    0x21e1cde6; 0xc33707d6; 0xf4d50d87; 0x455a14ed;
    0xa9e3e905; 0xfcefa3f8; 0x676f02d9; 0x8d2a4c8a;
    0xfffa3942; 0x8771f681; 0x6d9d6122; 0xfde5380c;
    0xa4beea44; 0x4bdecfa9; 0xf6bb4b60; 0xbebfbc70;
    0x289b7ec6; 0xeaa127fa; 0xd4ef3085; 0x04881d05;
    0xd9d4d039; 0xe6db99e5; 0x1fa27cf8; 0xc4ac5665;
    0xf4292244; 0x432aff97; 0xab9423a7; 0xfc93a039;
    0x655b59c3; 0x8f0ccc92; 0xffeff47d; 0x85845dd1;
    0x6fa87e4f; 0xfe2ce6e0; 0xa3014314; 0x4e0811a1;
    0xf7537e82; 0xbd3af235; 0x2ad7d2bb; 0xeb86d391 ].

(** The four chaining words A, B, C, D. *)
Record state := State { sA : Z; sB : Z; sC : Z; sD : Z }.

Definition init : state :=
  State 0x67452301 0xefcdab89 0x98badcfe 0x10325476.

(** Little-endian packing of bytes into words and back. *)
Definition word_of_bytes (b0 b1 b2 b3 : Z) : Z :=
  b0 + 256 * b1 + 65536 * b2 + 16777216 * b3.

Definition bytes_of_word (w : Z) : list Z :=
  [ w mod 256; (w / 256) mod 256; (w / 65536) mod 256;
    (w / 16777216) mod 256 ].

Fixpoint words_of_bytes (fuel : nat) (bs : list Z) : list Z :=
  match fuel, bs with
  | S fuel', b0 :: b1 :: b2 :: b3 :: rest =>
      word_of_bytes b0 b1 b2 b3 :: words_of_bytes fuel' rest
  | _, _ => []
  end.

(** Padding: a single 0x80, zeros up to 56 mod 64, then the bit length
    as a 64-bit little-endian integer. *)
Definition padding (len : Z) : list Z :=
  let zeros := (55 - len) mod 64 in
  let bits := (8 * len) mod 18446744073709551616 in
  128 :: repeat 0 (Z.to_nat zeros)
    ++ bytes_of_word (bits mod 4294967296)
    ++ bytes_of_word (bits / 4294967296).

Definition round_fn (i : Z) (b c d : Z) : Z :=
  if i <? 16 then Z.lor (Z.land b c) (Z.land (not32 b) d)
  else if i <? 32 then Z.lor (Z.land d b) (Z.land (not32 d) c)
  else if i <? 48 then Z.lxor b (Z.lxor c d)
  else Z.lxor c (Z.lor b (not32 d)).

Definition round_idx (i : Z) : Z :=
  if i <? 16 then i
  else if i <? 32 then (5 * i + 1) mod 16
  else if i <? 48 then (3 * i + 5) mod 16
  else (7 * i) mod 16.

Definition step (m : list Z) (st : state) (i : nat) : state :=
  let iz := Z.of_nat i in
  let f := round_fn iz (sB st) (sC st) (sD st) in
  let g := Z.to_nat (round_idx iz) in
  let sum := add32 (add32 (add32 f (sA st)) (nth i sines 0)) (nth g m 0) in
  State (sD st) (add32 (sB st) (rotl32 sum (nth i shifts 0))) (sB st) (sC st).

Definition compress (st : state) (m : list Z) : state :=
  let st' := fold_left (step m) (seq 0 64) st in
  State (add32 (sA st) (sA st')) (add32 (sB st) (sB st'))
        (add32 (sC st) (sC st')) (add32 (sD st) (sD st')).

Fixpoint blocks (fuel : nat) (ws : list Z) : list (list Z) :=
  match fuel with
  | O => []
  | S fuel' =>
      match ws with
      | [] => []
      | _ => firstn 16 ws :: blocks fuel' (skipn 16 ws)
      end
  end.

Definition digest (msg : list Z) : list Z :=
  let padded := msg ++ padding (Z.of_nat (List.length msg)) in
  let ws := words_of_bytes (List.length padded) padded in
  let st := fold_left compress (blocks (List.length ws) ws) init in
  bytes_of_word (sA st) ++ bytes_of_word (sB st)
    ++ bytes_of_word (sC st) ++ bytes_of_word (sD st).

End MD5.

(* ================================================================== *)
(** ** Strings, bytes and hexadecimal rendering                         *)
(* ================================================================== *)

Definition bytes_of_string (s : string) : list Z :=
  map (fun c => Z.of_N (N_of_ascii c)) (list_ascii_of_string s).

Definition hex_digit (n : Z) : ascii :=
  nth (Z.to_nat n) (list_ascii_of_string "0123456789abcdef") "0"%char.

(** [digest('hex')]: two lowercase digits per byte, high nibble first. *)
Definition hex_of_bytes (bs : list Z) : string :=
  string_of_list_ascii
    (flat_map (fun b => [hex_digit (b / 16); hex_digit (b mod 16)]) bs).

Definition is_lower_hex (c : ascii) : bool :=
  let n := N_of_ascii c in
  ((48 <=? n) && (n <=? 57) || (97 <=? n) && (n <=? 102))%N.

(* ================================================================== *)
(** ** [generateSignature]                                              *)
(* ================================================================== *)

(** [crypto.createHash('md5').update(url + token + timestamp).digest('hex')] *)
Definition generateSignature (url token timestamp : string) : string :=
  let data := (url ++ token ++ timestamp)%string in
  hex_of_bytes (MD5.digest (bytes_of_string data)).

(* ================================================================== *)
(** ** Decimal rendering and [generateSerialNumbers]                    *)
(* ================================================================== *)

(** [String(n)] / [n.toString()] on an integer. *)
Definition toString (n : Z) : string :=
  NilZero.string_of_int (Z.to_int n).

(** [s.padStart(width, c)] for a one-character filler. *)
Definition padStart (s : string) (width : nat) (c : ascii) : string :=
  (string_of_list_ascii (repeat c (width - String.length s)) ++ s)%string.

(** The loop [for (let i = 0; i < count; i++) push(...)] visits
    0, 1, ..., count - 1 in order. *)
Definition generateSerialNumbers (count : Z) : list string :=
  map (fun i => ("SN-" ++ padStart (toString (Z.of_nat i)) 3 "0"%char)%string)
      (seq 0 (Z.to_nat count)).

(* ================================================================== *)
(** ** [createBatches]                                                  *)
(* ================================================================== *)

Section Batches.

Context {A : Type}.

(** [Array.prototype.slice(start, end)] on integer arguments: a negative
    index counts from the end, both indices are clamped to the array. *)
Definition slice (a : list A) (start stop : Z) : list A :=
  let len := Z.of_nat (List.length a) in
  let k := if start <? 0 then Z.max (len + start) 0 else Z.min start len in
  let final := if stop <? 0 then Z.max (len + stop) 0 else Z.min stop len in
  firstn (Z.to_nat (final - k)) (skipn (Z.to_nat k) a).

(** The [for] loop of [createBatches], one iteration per unit of fuel;
    [None] means the loop is still running when the fuel is spent. *)
Fixpoint createBatches_loop (fuel : nat) (array : list A) (batchSize : Z)
    (i : Z) (batches : list (list A)) : option (list (list A)) :=
  match fuel with
  | O => None
  | S fuel' =>
      if i <? Z.of_nat (List.length array)
      then createBatches_loop fuel' array batchSize (i + batchSize)
             (batches ++ [slice array i (i + batchSize)])
      else Some batches
  end.

Definition createBatches_fuel (fuel : nat) (array : list A) (batchSize : Z)
    : option (list (list A)) :=
  createBatches_loop fuel array batchSize 0 [].

(** One unit of fuel per element and one for the exit test is enough
    whenever the loop terminates at all (see [createBatches_loop_None]). *)
Definition createBatches (array : list A) (batchSize : Z)
    : option (list (list A)) :=
  createBatches_fuel (S (List.length array)) array batchSize.

(** The [k]-th batch, read off the input, and the number of batches
    (the ceiling of [n / b]); both are used to state what the loop
    computes. *)
Definition batchAt (array : list A) (b : Z) (k : nat) : list A :=
  slice array (Z.of_nat k * b) (Z.of_nat k * b + b).

Definition batchCount (array : list A) (b : Z) : nat :=
  Z.to_nat ((Z.of_nat (List.length array) + b - 1) / b).

End Batches.

(* ================================================================== *)
(** ** Configuration                                                    *)
(* ================================================================== *)

Record Config := {
  API_URL : string;
  TOKEN : string;
  RATE_LIMIT_MS : Z;
  BATCH_SIZE : Z;
  MAX_RETRIES : Z;
  RETRY_DELAY_MS : Z
}.

Definition CONFIG : Config := {|
  API_URL := "http://localhost:3000/device/real/query";
  TOKEN := "interview_token_123";
  RATE_LIMIT_MS := 1000;
  BATCH_SIZE := 10;
  MAX_RETRIES := 3;
  RETRY_DELAY_MS := 2000
|}.

(* ================================================================== *)
(** ** The world the client runs in                                     *)
(* ================================================================== *)

Record DeviceReading := {
  sn : string;
  power : string;
  status : string;
  last_updated : string
}.

(** The body and headers handed to [axios.post]. *)
Record Request := {
  req_url : string;
  sn_list : list string;
  hdr_signature : string;
  hdr_timestamp : string
}.

(** The error object [axios.post] rejects with: [error.response?.status],
    [error.code] and [error.message]. *)
Record AxiosError := {
  response_status : option Z;
  code : option string;
  message : string
}.

(** What an awaited [axios.post] yields.  [Resolved d] carries the [data]
    field of the response body, [None] when the body has no iterable
    [data]. *)
Inductive Outcome :=
| Resolved (d : option (list DeviceReading))
| Rejected (e : AxiosError).

(** Values that can be thrown. *)
Inductive Exn :=
| ExnAxios (e : AxiosError)
| ExnError (msg : string)
| ExnTypeError (msg : string).

(** The environment: the endpoint's answer and the duration of the k-th
    network call, by how much the n-th timer overshoots the delay it runs
    with, and the platform's URL parser: [pathnameOf u] is
    [new URL(u).pathname], [None] when [new URL(u)] throws.  Durations are
    naturals, so the clock never runs backwards. *)
Record Env := {
  respond : nat -> Request -> Outcome;
  latency : nat -> N;
  overshoot : nat -> N;
  pathnameOf : string -> option string
}.

(** The delay a timer really runs with: [setTimeout] replaces a delay
    below 1 or above 2147483647 by 1. *)
Definition TIMEOUT_MAX : Z := 2147483647.

Definition timerDelay (ms : Z) : Z :=
  if (ms <? 1) || (TIMEOUT_MAX <? ms) then 1 else ms.
Arguments timerDelay ms : simpl never.

Record RateLimitedQueue := {
  rateLimitMs : Z;
  lastRequestTime : Z
}.

Inductive Event :=
| EvPost (time : Z) (req : Request)
| EvSleep (ms : Z).

Record World := {
  clock : Z;                   (* what [Date.now()] returns *)
  queue : RateLimitedQueue;    (* the one queue object of the run *)
  posts : nat;                 (* network calls issued so far *)
  naps : nat;                  (* timers awaited so far *)
  trace : list Event           (* network calls and timers, oldest first *)
}.

Inductive Res (A : Type) :=
| Return (a : A)
| Throw (e : Exn).
Arguments Return {A} a.
Arguments Throw {A} e.

(** Computations: [None] is a computation that never completes. *)
Definition M (A : Type) : Type := World -> option (Res A * World).

Definition ret {A} (a : A) : M A := fun w => Some (Return a, w).

Definition throw {A} (e : Exn) : M A := fun w => Some (Throw e, w).

Definition diverge {A} : M A := fun _ => None.

Definition bind {A B} (m : M A) (k : A -> M B) : M B :=
  fun w =>
    match m w with
    | None => None
    | Some (Throw e, w') => Some (Throw e, w')
    | Some (Return a, w') => k a w'
    end.

(** [try { m } catch (error) { h error }] *)
Definition try_catch {A} (m : M A) (h : Exn -> M A) : M A :=
  fun w =>
    match m w with
    | None => None
    | Some (Throw e, w') => h e w'
    | Some (Return a, w') => Some (Return a, w')
    end.

Notation "x <- m ;; k" := (bind m (fun x => k))
  (at level 61, m at next level, right associativity).
Notation "m ;;; k" := (bind m (fun _ => k))
  (at level 61, right associativity).

Definition Date_now : M Z := fun w => Some (Return (clock w), w).

(** The world after the assignment [this.lastRequestTime = t]. *)
Definition recorded (t : Z) (w : World) : World :=
  {| clock := clock w;
     queue := {| rateLimitMs := rateLimitMs (queue w);
                 lastRequestTime := t |};
     posts := posts w;
     naps := naps w;
     trace := trace w |}.

Section Client.

Variable env : Env.
Variable cfg : Config.

(** The world once a timer set to [ms] milliseconds has fired: the delay
    the timer runs with later, or a little after that. *)
Definition afterSleep (ms : Z) (w : World) : World :=
  {| clock := clock w + timerDelay ms + Z.of_N (overshoot env (naps w));
     queue := queue w;
     posts := posts w;
     naps := S (naps w);
     trace := trace w ++ [EvSleep ms] |}.

(** The world once the network call issued in [w] has completed. *)
Definition afterPost (w : World) (req : Request) : World :=
  {| clock := clock w + Z.of_N (latency env (posts w));
     queue := queue w;
     posts := S (posts w);
     naps := naps w;
     trace := trace w ++ [EvPost (clock w) req] |}.

(** [await sleep(ms)] *)
Definition sleep (ms : Z) : M unit :=
  fun w => Some (Return tt, afterSleep ms w).

(** [await axios.post(...)]: resolves with [response.data] or rejects. *)
Definition axios_post (req : Request) : M (option (list DeviceReading)) :=
  fun w =>
    match respond env (posts w) req with
    | Resolved d => Some (Return d, afterPost w req)
    | Rejected e => Some (Throw (ExnAxios e), afterPost w req)
    end.

(** [new URL(u).pathname]: a [TypeError] when [u] does not parse. *)
Definition new_URL_pathname (u : string) : M string :=
  match pathnameOf env u with
  | Some path => ret path
  | None => throw (ExnTypeError "Invalid URL")
  end.

(** The request [makeRequest] builds at time [now] for the path [url] of
    the API URL: timestamp and signature are computed afresh from the
    clock. *)
Definition signedRequest (url : string) (snList : list string) (now : Z)
    : Request :=
  let timestamp := toString now in
  let signature := generateSignature url (TOKEN cfg) timestamp in
  {| req_url := API_URL cfg;
     sn_list := snList;
     hdr_signature := signature;
     hdr_timestamp := timestamp |}.

(** [error.response?.status === 429 || error.code === 'ECONNREFUSED'] *)
Definition isRetryable (error : Exn) : bool :=
  match error with
  | ExnAxios e =>
      (match response_status e with Some s => s =? 429 | None => false end)
      || (match code e with
          | Some c => String.eqb c "ECONNREFUSED"
          | None => false
          end)
  | _ => false
  end.

Definition exn_message (error : Exn) : string :=
  match error with
  | ExnAxios e => message e
  | ExnError m => m
  | ExnTypeError m => m
  end.

(** The error thrown when the retries run out on the rejection [e]. *)
Definition exhausted (e : AxiosError) : Exn :=
  ExnError ("Failed after " ++ toString (MAX_RETRIES cfg)
            ++ " retries: " ++ message e)%string.

(** [makeRequest]: each unit of fuel pays for one attempt. *)
Fixpoint makeRequest_fuel (fuel : nat) (snList : list string)
    (retryCount : Z) : M (option (list DeviceReading)) :=
  match fuel with
  | O => diverge
  | S fuel' =>
      now <- Date_now ;;
      url <- new_URL_pathname (API_URL cfg) ;;
      try_catch
        (axios_post (signedRequest url snList now))
        (fun error =>
           if isRetryable error then
             if retryCount <? MAX_RETRIES cfg then
               sleep (RETRY_DELAY_MS cfg) ;;;
               makeRequest_fuel fuel' snList (retryCount + 1)
             else
               throw (ExnError ("Failed after " ++ toString (MAX_RETRIES cfg)
                                ++ " retries: " ++ exn_message error)%string)
           else throw error)
  end.

(** The recursion stops at [retryCount = MAX_RETRIES] at the latest. *)
Definition makeRequest (snList : list string) (retryCount : Z)
    : M (option (list DeviceReading)) :=
  makeRequest_fuel (S (Z.to_nat (MAX_RETRIES cfg - retryCount)))
                   snList retryCount.

(** *** [RateLimitedQueue] *)

(** [new RateLimitedQueue(rateLimitMs)] *)
Definition newQueue (rate : Z) : M unit :=
  fun w =>
    Some (Return tt,
          {| clock := clock w;
             queue := {| rateLimitMs := rate; lastRequestTime := 0 |};
             posts := posts w;
             naps := naps w;
             trace := trace w |}).

Definition getQueue : M RateLimitedQueue :=
  fun w => Some (Return (queue w), w).

(** [this.lastRequestTime = t] *)
Definition setLastRequestTime (t : Z) : M unit :=
  fun w => Some (Return tt, recorded t w).

Definition execute {A} (fn : M A) : M A :=
  now <- Date_now ;;
  this <- getQueue ;;
  let timeSinceLastRequest := now - lastRequestTime this in
  (if timeSinceLastRequest <? rateLimitMs this
   then
     let waitTime := rateLimitMs this - timeSinceLastRequest in
     sleep waitTime
   else ret tt) ;;;
  now' <- Date_now ;;
  setLastRequestTime now' ;;;
  fn.

(** *** [fetchAllDeviceData] *)

Record Acc := {
  allResults : list DeviceReading;
  successCount : Z;
  failureCount : Z
}.

(** [...result.data] throws a [TypeError] when there is nothing to
    spread. *)
Definition spread (d : option (list DeviceReading))
    : M (list DeviceReading) :=
  match d with
  | Some readings => ret readings
  | None => throw (ExnTypeError "result.data is not iterable")
  end.

(** One iteration of the [for] loop over the batches. *)
Definition processBatch (acc : Acc) (batch : list string) : M Acc :=
  let n := Z.of_nat (List.length batch) in
  try_catch
    (result <- execute (makeRequest batch 0) ;;
     readings <- spread result ;;
     ret {| allResults := allResults acc ++ readings;
            successCount := successCount acc + n;
            failureCount := failureCount acc |})
    (fun _ =>
       ret {| allResults := allResults acc;
              successCount := successCount acc;
              failureCount := failureCount acc + n |}).

Fixpoint processBatches (acc : Acc) (batches : list (list string))
    : M Acc :=
  match batches with
  | [] => ret acc
  | batch :: rest =>
      acc' <- processBatch acc batch ;;
      processBatches acc' rest
  end.

Record Statistics := { online : Z; offline : Z }.

Record Summary := {
  totalDevices : Z;
  sum_successCount : Z;
  sum_failureCount : Z;
  durationMs : Z;     (* the source renders it in seconds, two decimals *)
  data : list DeviceReading;
  statistics : Statistics
}.

Definition count_status (s : string) (l : list DeviceReading) : Z :=
  Z.of_nat (List.length (filter (fun d => String.eqb (status d) s) l)).

(** The driver, for a population of [count] devices. *)
Definition fetchDeviceData (count : Z) : M Summary :=
  let serialNumbers := generateSerialNumbers count in
  match createBatches serialNumbers (BATCH_SIZE cfg) with
  | None => diverge
  | Some batches =>
      newQueue (RATE_LIMIT_MS cfg) ;;;
      startTime <- Date_now ;;
      acc <- processBatches
               {| allResults := []; successCount := 0; failureCount := 0 |}
               batches ;;
      endTime <- Date_now ;;
      ret {| totalDevices := Z.of_nat (List.length serialNumbers);
             sum_successCount := successCount acc;
             sum_failureCount := failureCount acc;
             durationMs := endTime - startTime;
             data := allResults acc;
             statistics :=
               {| online := count_status "Online" (allResults acc);
                  offline := count_status "Offline" (allResults acc) |} |}
  end.

Definition fetchAllDeviceData : M Summary := fetchDeviceData 500.

(** *** Callers and observations used to state the properties *)

(** The world in which [execute] leaves its waiting phase when entered
    in [w], and the world in which it then invokes the operation. *)
Definition gate (w : World) : World :=
  let elapsed := clock w - lastRequestTime (queue w) in
  if elapsed <? rateLimitMs (queue w)
  then afterSleep (rateLimitMs (queue w) - elapsed) w
  else w.

Definition admitted (w : World) : World :=
  recorded (clock (gate w)) (gate w).

(** A caller that awaits [execute] on each operation in turn, whatever
    the operation's outcome, and notes the admission time recorded for
    it. *)
Fixpoint admissions {A} (fns : list (M A)) : M (list Z) :=
  match fns with
  | [] => ret []
  | fn :: rest =>
      try_catch (execute fn ;;; ret tt) (fun _ => ret tt) ;;;
      this <- getQueue ;;
      ts <- admissions rest ;;
      ret (lastRequestTime this :: ts)
  end.

End Client.

(** An operation handed to [execute] that completes (normally or by
    throwing), does not turn the clock back and leaves the queue object
    alone. *)
Definition Polite {A} (fn : M A) : Prop :=
  forall w, exists r w',
    fn w = Some (r, w') /\ clock w <= clock w' /\ queue w' = queue w.

(** An endpoint that accepts every call and reports one reading per
    requested identifier. *)
Definition AllAccepted (env : Env) : Prop :=
  forall k req, exists rs,
    respond env k req = Resolved (Some rs)
    /\ List.length rs = List.length (sn_list req).

(** Consecutive entries are at least [gap] apart. *)
Fixpoint spaced (gap : Z) (ts : list Z) : Prop :=
  match ts with
  | t :: (t' :: _) as rest => t + gap <= t' /\ spaced gap rest
  | _ => True
  end.

(** The network calls of a trace, with the time each was issued. *)
Fixpoint postsOf (tr : list Event) : list (Z * Request) :=
  match tr with
  | [] => []
  | EvPost t req :: rest => (t, req) :: postsOf rest
  | EvSleep _ :: rest => postsOf rest
  end.

Definition postTimes (tr : list Event) : list Z := map fst (postsOf tr).

(** A trace with times and payloads forgotten. *)
Inductive Shape := SPost | SSleep (ms : Z).

Definition shape (ev : Event) : Shape :=
  match ev with
  | EvPost _ _ => SPost
  | EvSleep ms => SSleep ms
  end.

Fixpoint count_posts (l : list Shape) : nat :=
  match l with
  | [] => 0
  | SPost :: rest => S (count_posts rest)
  | SSleep _ :: rest => count_posts rest
  end.

Definition final_trace {A} (r : option (Res A * World)) : list Event :=
  match r with
  | Some (_, w) => trace w
  | None => []
  end.

(** Resolved and failed counts, number of readings and number of network
    calls of a completed run. *)
Definition tally (r : option (Res Summary * World))
    : option (Z * Z * nat * nat) :=
  match r with
  | Some (Return s, w) =>
      Some (sum_successCount s, sum_failureCount s,
            List.length (data s), posts w)
  | _ => None
  end.

(** *** Sample endpoints and a start-up world *)

Definition reading_of (s : string) : DeviceReading :=
  {| sn := s; power := "1.00 kW"; status := "Online"; last_updated := "" |}.

(** An endpoint answer with one reading per requested identifier. *)
Definition accept (req : Request) : Outcome :=
  Resolved (Some (map reading_of (sn_list req))).

Definition http_error (st : Z) : AxiosError :=
  {| response_status := Some st;
     code := Some "ERR_BAD_REQUEST";
     message := ("Request failed with status code " ++ toString st)%string |}.

(** A URL parser for the sample runs: it knows the shipped URL, whose
    path is [/device/real/query], and takes no other string. *)
Definition shipped_pathname (u : string) : option string :=
  if String.eqb u "http://localhost:3000/device/real/query"
  then Some "/device/real/query"
  else None.

(** Every call answered after 5 ms; timers fire on time. *)
Definition endpoint (answer : nat -> Request -> Outcome) : Env :=
  {| respond := answer;
     latency := fun _ => 5%N;
     overshoot := fun _ => 0%N;
     pathnameOf := shipped_pathname |}.

Definition env_ok : Env := endpoint (fun _ => accept).

(** The first [k] calls are rejected with status [st], later ones accepted. *)
Definition env_failing_first (k : nat) (st : Z) : Env :=
  endpoint (fun i req =>
              if (i <? k)%nat then Rejected (http_error st) else accept req).

Definition env_always (st : Z) : Env :=
  endpoint (fun _ _ => Rejected (http_error st)).

(** An operation that takes [ms] milliseconds and ends with [r]. *)
Definition lasting {A} (ms : N) (r : Res A) : M A :=
  fun w =>
    Some (r, {| clock := clock w + Z.of_N ms;
                queue := queue w;
                posts := posts w;
                naps := naps w;
                trace := trace w |}).

(** A world at time [now] whose queue last admitted at time [last]. *)
Definition running (rate last now : Z) : World :=
  {| clock := now;
     queue := {| rateLimitMs := rate; lastRequestTime := last |};
     posts := 0;
     naps := 0;
     trace := [] |}.

Definition boot : World :=
  {| clock := 1700000000000;
     queue := {| rateLimitMs := 0; lastRequestTime := 0 |};
     posts := 0;
     naps := 0;
     trace := [] |}.

(** *** Further endpoint behaviours and observations *)

(** The index written in a serial number: the decimal digits after
    [SN-], leading zeros included. *)
Definition serialIndex (s : string) : option Z :=
  match s with
  | String "S" (String "N" (String "-" digits)) =>
      option_map Z.of_uint (NilEmpty.uint_of_string digits)
  | _ => None
  end.

(** No call is rejected with a cause that [makeRequest] retries. *)
Definition NoRetryable (env : Env) : Prop :=
  forall k req e,
    respond env k req = Rejected e -> isRetryable (ExnAxios e) = false.

(** Every call is rejected. *)
Definition AllRejected (env : Env) : Prop :=
  forall k req, exists e, respond env k req = Rejected e.

(** Every call is rejected with a cause that [makeRequest] retries. *)
Definition AllRetryable (env : Env) : Prop :=
  forall k req, exists e,
    respond env k req = Rejected e /\ isRetryable (ExnAxios e) = true.

(** Every call is answered with some list of readings, of any length. *)
Definition AllResolved (env : Env) : Prop :=
  forall k req, exists rs, respond env k req = Resolved (Some rs).

(** Every call is answered with a body that has no iterable [data]. *)
Definition NoData (env : Env) : Prop :=
  forall k req, respond env k req = Resolved None.

(** Every reading reports one of the two documented statuses. *)
Definition known_status (d : DeviceReading) : bool :=
  String.eqb (status d) "Online" || String.eqb (status d) "Offline".

(** An endpoint that accepts every call but reports no reading, and one
    whose answers carry no [data] at all. *)
Definition env_silent : Env := endpoint (fun _ _ => Resolved (Some [])).

Definition env_no_data : Env := endpoint (fun _ _ => Resolved None).

(** The world right after [new RateLimitedQueue(rate)]. *)
Definition withNewQueue (rate : Z) (w : World) : World :=
  {| clock := clock w;
     queue := {| rateLimitMs := rate; lastRequestTime := 0 |};
     posts := posts w;
     naps := naps w;
     trace := trace w |}.

(** The result object built at the end of [fetchAllDeviceData]. *)
Definition summaryOf (total : Z) (acc : Acc) (startTime endTime : Z)
    : Summary :=
  {| totalDevices := total;
     sum_successCount := successCount acc;
     sum_failureCount := failureCount acc;
     durationMs := endTime - startTime;
     data := allResults acc;
     statistics :=
       {| online := count_status "Online" (allResults acc);
          offline := count_status "Offline" (allResults acc) |} |}.

Definition final_world {A} (r : option (Res A * World)) : option World :=
  match r with
  | Some (_, w) => Some w
  | None => None
  end.

Definition result_of {A} (r : option (Res A * World)) : option (Res A) :=
  match r with
  | Some (res, _) => Some res
  | None => None
  end.

(** The string [generateSignature] hashes for a request made at [now]. *)
Definition signedMessage (cfg : Config) (url : string) (now : Z) : string :=
  (url ++ TOKEN cfg ++ toString now)%string.

(** What the loop of the driver does to the world, batch after batch,
    without the bookkeeping: the outcome of each rate-limited request, in
    batch order. *)
Fixpoint batchOutcomes (env : Env) (cfg : Config)
    (batches : list (list string)) (w : World)
    : list (Res (option (list DeviceReading))) :=
  match batches with
  | [] => []
  | batch :: rest =>
      match execute env (makeRequest env cfg batch 0) w with
      | Some (r, w1) => r :: batchOutcomes env cfg rest w1
      | None => []
      end
  end.

(** The readings of a request that returned some, and the bookkeeping the
    outcomes call for. *)
Definition readingsOf (r : Res (option (list DeviceReading)))
    : option (list DeviceReading) :=
  match r with
  | Return (Some rs) => Some rs
  | _ => None
  end.

Fixpoint credited (acc : Acc) (batches : list (list string))
    (outcomes : list (Res (option (list DeviceReading)))) : Acc :=
  match batches, outcomes with
  | batch :: batches', r :: outcomes' =>
      let n := Z.of_nat (List.length batch) in
      credited
        (match readingsOf r with
         | Some rs => {| allResults := allResults acc ++ rs;
                         successCount := successCount acc + n;
                         failureCount := failureCount acc |}
         | None => {| allResults := allResults acc;
                      successCount := successCount acc;
                      failureCount := failureCount acc + n |}
         end)
        batches' outcomes'
  | _, _ => acc
  end.

(** An endpoint that cannot be reached: every call fails at connection
    level with the given code, and there is no response. *)
Definition network_error (c : string) : AxiosError :=
  {| response_status := None;
     code := Some c;
     message := ("connect " ++ c)%string |}.

Definition env_unreachable (c : string) : Env :=
  endpoint (fun _ _ => Rejected (network_error c)).

(** The sample endpoint on a platform whose URL parser takes nothing. *)
Definition env_bad_url : Env :=
  {| respond := fun _ => accept;
     latency := fun _ => 5%N;
     overshoot := fun _ => 0%N;
     pathnameOf := fun _ => None |}.

(* ================================================================== *)
(** ** Properties of the signer                                         *)
(* ================================================================== *)

Lemma bytes_of_word_length (w : Z) : List.length (MD5.bytes_of_word w) = 4%nat.
Proof. reflexivity. Qed.

Lemma bytes_of_word_range (w : Z) :
  Forall (fun b => 0 <= b < 256) (MD5.bytes_of_word w).
Proof.
  unfold MD5.bytes_of_word.
  repeat constructor; apply Z.mod_pos_bound; lia.
Qed.

Lemma digest_length (msg : list Z) : List.length (MD5.digest msg) = 16%nat.
Proof.
  unfold MD5.digest.
  rewrite !length_app, !bytes_of_word_length. reflexivity.
Qed.

Lemma digest_range (msg : list Z) :
  Forall (fun b => 0 <= b < 256) (MD5.digest msg).
Proof.
  unfold MD5.digest.
  repeat (apply Forall_app; split); apply bytes_of_word_range.
Qed.

Lemma hex_digit_lower (n : Z) :
  0 <= n < 16 -> is_lower_hex (hex_digit n) = true.
Proof.
  intros Hn.
  assert (Htable : forallb (fun k => is_lower_hex (hex_digit (Z.of_nat k)))
                           (seq 0 16) = true) by reflexivity.
  rewrite forallb_forall in Htable.
  specialize (Htable (Z.to_nat n)).
  rewrite Z2Nat.id in Htable by lia.
  apply Htable, in_seq. lia.
Qed.

Lemma hex_of_bytes_length (bs : list Z) :
  String.length (hex_of_bytes bs) = (2 * List.length bs)%nat.
Proof.
  unfold hex_of_bytes.
  induction bs as [| b bs IH]; [reflexivity |].
  cbn [flat_map app string_of_list_ascii String.length List.length].
  rewrite IH. lia.
Qed.

Lemma hex_of_bytes_lower (bs : list Z) :
  Forall (fun b => 0 <= b < 256) bs ->
  forallb is_lower_hex (list_ascii_of_string (hex_of_bytes bs)) = true.
Proof.
  unfold hex_of_bytes. rewrite list_ascii_of_string_of_list_ascii.
  induction 1 as [| b bs Hb _ IH]; [reflexivity |].
  cbn [flat_map app forallb]. rewrite IH.
  rewrite !hex_digit_lower; [reflexivity | |].
  - apply Z.mod_pos_bound; lia.
  - split; [apply Z.div_pos; lia | apply Z.div_lt_upper_bound; lia].
Qed.

(** C7. [generateSignature] is a function of its three arguments only: the
    MD5 digest of the concatenation [url ++ token ++ timestamp], in that
    order, rendered as exactly 32 lowercase hexadecimal characters.  The
    digest is the one of RFC 1321: on the reference messages of the RFC,
    split over the three arguments, and on a request of the shipped
    configuration it gives the published, respectively the expected,
    value. *)
Theorem generateSignature_md5_hex (url token timestamp : string) :
  generateSignature url token timestamp
    = hex_of_bytes
        (MD5.digest (bytes_of_string (url ++ token ++ timestamp)%string))
  /\ String.length (generateSignature url token timestamp) = 32%nat
  /\ forallb is_lower_hex
       (list_ascii_of_string (generateSignature url token timestamp)) = true
  /\ generateSignature "" "" "" = "d41d8cd98f00b204e9800998ecf8427e"
  /\ generateSignature "a" "b" "c" = "900150983cd24fb0d6963f7d28e17f72"
  /\ generateSignature "message" " " "digest"
     = "f96b697d7cb7938d525a2f31aaf161d0"
  /\ generateSignature "abcdefghijklm" "nopqrstuvwxyz" ""
     = "c3fcd3d76192e4007dfb496cca67e13b"
  /\ generateSignature "1234567890123456789012345678901234567890"
                       "1234567890123456789012345678901234567890" ""
     = "57edf4a22be3c955ac49da2e2107b67a"
  /\ generateSignature "/device/real/query" "interview_token_123"
                       "1700000000000"
     = "192e6a35c45c5f24d5103c72c4ba77e9"
  /\ generateSignature "/device/real/query" "interview_token_123"
                       "1700000002005"
     = "15d2cc3873fa5c88aaf775bcccfb37b0".
Proof.
  split; [reflexivity |].
  split; [unfold generateSignature;
          rewrite hex_of_bytes_length, digest_length; reflexivity |].
  split; [unfold generateSignature; apply hex_of_bytes_lower, digest_range |].
  repeat split; vm_compute; reflexivity.
Qed.

(** The digest agrees with the reference vectors of RFC 1321. *)
Example md5_empty :
  generateSignature "" "" "" = "d41d8cd98f00b204e9800998ecf8427e".
Proof. vm_compute. reflexivity. Qed.

Example md5_abc :
  generateSignature "a" "b" "c" = "900150983cd24fb0d6963f7d28e17f72".
Proof. vm_compute. reflexivity. Qed.

Example md5_two_blocks :
  generateSignature "1234567890123456789012345678901234567890"
                    "1234567890123456789012345678901234567890" ""
  = "57edf4a22be3c955ac49da2e2107b67a".
Proof. vm_compute. reflexivity. Qed.

(* ================================================================== *)
(** ** Properties of the batcher                                        *)
(* ================================================================== *)

Section BatchFacts.

Context {A : Type}.
Implicit Types (array : list A) (batches : list (list A)).

(** On indices [0 <= start <= stop] a slice is "skip, then take". *)
Lemma slice_nonneg array (start stop : Z) :
  0 <= start <= stop ->
  slice array start stop
    = firstn (Z.to_nat (stop - start)) (skipn (Z.to_nat start) array).
Proof.
  intros [H0 Hle]. unfold slice.
  destruct (Z.ltb_spec start 0) as [? | _]; [lia |].
  destruct (Z.ltb_spec stop 0) as [? | _]; [lia |].
  set (len := Z.of_nat (List.length array)).
  destruct (Z.le_gt_cases len start) as [Hout | Hin].
  - rewrite Z.min_r by lia.
    rewrite !skipn_all2 by lia. now rewrite !firstn_nil.
  - rewrite (Z.min_l start) by lia.
    destruct (Z.le_gt_cases stop len) as [Hs | Hs].
    + now rewrite Z.min_l by lia.
    + rewrite Z.min_r by lia.
      rewrite !firstn_all2; [reflexivity | |]; rewrite length_skipn; lia.
Qed.

Lemma firstn_plus array (n m : nat) :
  firstn (n + m) array = firstn n array ++ firstn m (skipn n array).
Proof.
  revert array; induction n as [| n IH]; intros [| x array]; cbn;
    try reflexivity.
  - now rewrite firstn_nil.
  - now rewrite IH.
Qed.

Lemma batchCount_bounds array (b : Z) :
  0 < b ->
  let n := Z.of_nat (List.length array) in
  let c := Z.of_nat (batchCount array b) in
  (c - 1) * b < n <= c * b \/ (n = 0 /\ c = 0).
Proof.
  intros Hb n c. subst c. unfold batchCount. fold n.
  assert (Hn : 0 <= n) by (subst n; lia).
  rewrite Z2Nat.id by (apply Z.div_pos; lia).
  pose proof (Z.div_mod (n + b - 1) b ltac:(lia)) as Hdm.
  pose proof (Z.mod_pos_bound (n + b - 1) b Hb) as Hmod.
  destruct (Z.eq_dec n 0) as [-> | Hne].
  - right. split; [reflexivity |]. apply Z.div_small. lia.
  - left. nia.
Qed.

(** The loop, started at the [k0]-th multiple of the batch size, appends
    the remaining batches and stops. *)
Lemma createBatches_loop_spec array (b : Z) :
  0 < b ->
  forall (m k0 fuel : nat) batches,
    (k0 + m)%nat = batchCount array b ->
    (m < fuel)%nat ->
    createBatches_loop fuel array b (Z.of_nat k0 * b) batches
      = Some (batches ++ map (batchAt array b) (seq k0 m)).
Proof.
  intros Hb. pose proof (batchCount_bounds array b Hb) as Hc. cbn zeta in Hc.
  induction m as [| m IH]; intros k0 fuel batches Hk Hfuel;
    (destruct fuel as [| fuel]; [lia |]); cbn [createBatches_loop].
  - destruct (Z.ltb_spec (Z.of_nat k0 * b) (Z.of_nat (List.length array)))
      as [Hlt | _].
    + exfalso. rewrite Nat.add_0_r in Hk. rewrite <- Hk in Hc. nia.
    + cbn. now rewrite app_nil_r.
  - destruct (Z.ltb_spec (Z.of_nat k0 * b) (Z.of_nat (List.length array)))
      as [_ | Hge].
    + replace (Z.of_nat k0 * b + b) with (Z.of_nat (S k0) * b) by lia.
      rewrite (IH (S k0) fuel) by lia.
      cbn [seq map]. rewrite <- app_assoc. cbn [app]. unfold batchAt at 2.
      now replace (Z.of_nat k0 * b + b) with (Z.of_nat (S k0) * b) by lia.
    + exfalso. rewrite <- Hk in Hc. nia.
Qed.

Lemma createBatches_eq array (b : Z) :
  0 < b ->
  createBatches array b
    = Some (map (batchAt array b) (seq 0 (batchCount array b))).
Proof.
  intros Hb. unfold createBatches, createBatches_fuel.
  change 0 with (Z.of_nat 0 * b).
  rewrite (createBatches_loop_spec array b Hb (batchCount array b) 0);
    [reflexivity | reflexivity |].
  pose proof (batchCount_bounds array b Hb) as Hc. cbn zeta in Hc.
  apply Nat.lt_succ_r. nia.
Qed.

Lemma batchAt_firstn_skipn array (b : Z) (k : nat) :
  0 < b ->
  batchAt array b k
    = firstn (Z.to_nat b) (skipn (k * Z.to_nat b) array).
Proof.
  intros Hb. unfold batchAt. rewrite slice_nonneg by nia.
  f_equal; [f_equal; lia | f_equal; nia].
Qed.

Lemma concat_batchAt array (b : Z) (c : nat) :
  0 < b ->
  List.concat (map (batchAt array b) (seq 0 c))
    = firstn (c * Z.to_nat b) array.
Proof.
  intros Hb. induction c as [| c IH]; [reflexivity |].
  rewrite seq_S, map_app, concat_app, IH. cbn [map List.concat Nat.add].
  rewrite app_nil_r, batchAt_firstn_skipn by assumption.
  rewrite <- firstn_plus. f_equal. lia.
Qed.

End BatchFacts.

Section BatchTheorems.

Context {A : Type}.
Implicit Types (array : list A).

Lemma batchCount_le_length array (b : Z) :
  0 < b -> (batchCount array b <= List.length array)%nat.
Proof.
  intros Hb. pose proof (batchCount_bounds array b Hb) as Hc.
  cbn zeta in Hc. nia.
Qed.

Lemma nth_batches array (b : Z) (c i : nat) :
  (i < c)%nat ->
  nth i (map (batchAt array b) (seq 0 c)) [] = batchAt array b i.
Proof.
  intros Hi.
  rewrite (nth_indep _ [] (batchAt array b 0%nat))
    by now rewrite length_map, length_seq.
  rewrite map_nth, seq_nth by assumption. reflexivity.
Qed.

(** With a non-positive batch size the index never passes the end of a
    non-empty array: the loop outlives any amount of fuel. *)
Lemma createBatches_loop_None array (b : Z) :
  b <= 0 -> array <> [] ->
  forall fuel i batches,
    i <= 0 -> createBatches_loop fuel array b i batches = None.
Proof.
  intros Hb Hne.
  assert (Hlen : 0 < Z.of_nat (List.length array))
    by (destruct array; [contradiction | cbn; lia]).
  induction fuel as [| fuel IH]; intros i batches Hi; [reflexivity |].
  cbn [createBatches_loop].
  destruct (Z.ltb_spec i (Z.of_nat (List.length array))); [| lia].
  apply IH. lia.
Qed.

End BatchTheorems.

(** C2. For a batch size [b > 0] and an input of length [n],
    [createBatches] returns [ceil(n / b)] batches; batch [i] holds the input
    elements at positions [i*b .. min((i+1)*b, n) - 1] in their original
    order; the batches concatenate to the input; every batch but the last
    has exactly [b] elements and none has more. *)
Theorem createBatches_partition (A : Type) (array : list A) (b : Z) :
  0 < b ->
  let n := Z.of_nat (List.length array) in
  exists batches,
    createBatches array b = Some batches
    /\ Z.of_nat (List.length batches) = (n + b - 1) / b
    /\ (forall i, (i < List.length batches)%nat ->
          nth i batches []
            = firstn (Z.to_nat (Z.min ((Z.of_nat i + 1) * b) n - Z.of_nat i * b))
                     (skipn (Z.to_nat (Z.of_nat i * b)) array))
    /\ List.concat batches = array
    /\ (forall i, (S i < List.length batches)%nat ->
          Z.of_nat (List.length (nth i batches [])) = b)
    /\ Forall (fun batch => Z.of_nat (List.length batch) <= b) batches.
Proof.
  intros Hb n.
  pose proof (batchCount_bounds array b Hb) as Hc. cbn zeta in Hc. fold n in Hc.
  exists (map (batchAt array b) (seq 0 (batchCount array b))).
  rewrite length_map, length_seq.
  split; [now apply createBatches_eq |].
  split; [unfold batchCount; fold n; apply Z2Nat.id, Z.div_pos; lia |].
  split; [| split; [| split]].
  - intros i Hi. rewrite nth_batches by assumption.
    rewrite batchAt_firstn_skipn by assumption.
    replace (Z.to_nat (Z.of_nat i * b)) with (i * Z.to_nat b)%nat by nia.
    destruct (Z.le_gt_cases ((Z.of_nat i + 1) * b) n) as [Hfull | Hlast].
    + rewrite Z.min_l by assumption. f_equal. lia.
    + rewrite Z.min_r by lia.
      rewrite !firstn_all2; [reflexivity | |]; rewrite length_skipn; nia.
  - rewrite concat_batchAt by assumption.
    apply firstn_all2. nia.
  - intros i Hi. rewrite nth_batches by lia.
    rewrite batchAt_firstn_skipn by assumption.
    rewrite length_firstn, length_skipn. nia.
  - apply Forall_forall. intros batch Hin.
    apply in_map_iff in Hin. destruct Hin as (k & <- & _).
    rewrite batchAt_firstn_skipn by assumption.
    rewrite length_firstn. lia.
Qed.

Lemma createBatches_partition_witness :
  exists batches,
    createBatches (generateSerialNumbers 25) 10 = Some batches
    /\ Z.of_nat (List.length batches) = 3
    /\ List.concat batches = generateSerialNumbers 25.
Proof.
  destruct (createBatches_partition string (generateSerialNumbers 25) 10)
    as (batches & Heq & Hlen & _ & Hcat & _); [lia |].
  exists batches. split; [exact Heq |]. split; [exact Hlen | exact Hcat].
Defined.

(** The sizes 10, 10, 5 of the end-to-end scenario. *)
Example createBatches_25_by_10 :
  option_map (map (@List.length string))
             (createBatches (generateSerialNumbers 25) 10)
  = Some [10; 10; 5]%nat.
Proof. vm_compute. reflexivity. Qed.

(** C9, as the code has it.  [createBatches] has no failure mode of its
    own.  For every input and every size above zero it terminates and
    returns a value (with any fuel beyond the length of the input).  With a
    size of zero or less it signals nothing: on the empty input it returns
    the empty list of batches at once, and on a non-empty input the loop
    never ends. *)
Theorem createBatches_termination (A : Type) :
  (forall (array : list A) (b : Z), 0 < b ->
     exists batches,
       createBatches array b = Some batches
       /\ forall fuel, (List.length array < fuel)%nat ->
            createBatches_fuel fuel array b = Some batches)
  /\ (forall b : Z, b <= 0 -> createBatches (@nil A) b = Some [])
  /\ (forall (array : list A) (b : Z), b <= 0 -> array <> [] ->
        forall fuel, createBatches_fuel fuel array b = None).
Proof.
  split; [| split].
  - intros array b Hb.
    exists (map (batchAt array b) (seq 0 (batchCount array b))).
    split; [now apply createBatches_eq |].
    intros fuel Hfuel. unfold createBatches_fuel.
    change 0 with (Z.of_nat 0 * b).
    rewrite (createBatches_loop_spec array b Hb (batchCount array b) 0);
      [reflexivity | reflexivity |].
    pose proof (batchCount_le_length array b Hb). lia.
  - intros b _. reflexivity.
  - intros array b Hb Hne fuel.
    apply createBatches_loop_None; [assumption | assumption | lia].
Qed.

Lemma createBatches_termination_witness :
  (exists batches, createBatches ["SN-000"; "SN-001"; "SN-002"] 2 = Some batches)
  /\ createBatches (@nil string) (-1) = Some []
  /\ createBatches_fuel 100 ["SN-000"] 0 = None.
Proof.
  destruct (createBatches_termination string) as (Hpos & Hnil & Hloop).
  split; [| split].
  - destruct (Hpos ["SN-000"; "SN-001"; "SN-002"] 2) as (batches & Heq & _);
      [lia |].
    exists batches. exact Heq.
  - apply Hnil. lia.
  - apply Hloop; [lia | discriminate].
Defined.

(** With size 0 nothing fails: the empty input comes back as no batches,
    and a one-element input keeps the loop turning (the index stays at 0,
    no error is raised); likewise with a negative size. *)
Lemma createBatches_nonpositive_size_no_error :
  createBatches (@nil string) 0 = Some []
  /\ createBatches ["SN-000"] 0 = None
  /\ createBatches_fuel 1000 ["SN-000"; "SN-001"] (-1) = None.
Proof. vm_compute. repeat split; reflexivity. Qed.

(* ================================================================== *)
(** ** Properties of the request executor                               *)
(* ================================================================== *)

Lemma postsOf_shape_count (evs : list Event) :
  count_posts (map shape evs) = List.length (postsOf evs).
Proof.
  induction evs as [| [t req | ms] evs IH]; cbn; [reflexivity | | exact IH].
  now rewrite IH.
Qed.

Lemma count_posts_rounds (d : Z) (m : nat) :
  count_posts (List.concat (repeat [SSleep d; SPost] m)) = m.
Proof. induction m as [| m IH]; cbn; [reflexivity | now rewrite IH]. Qed.

Lemma postsOf_app (tr1 tr2 : list Event) :
  postsOf (tr1 ++ tr2) = postsOf tr1 ++ postsOf tr2.
Proof.
  induction tr1 as [| [t req | ms] tr1 IH]; cbn; [reflexivity | | exact IH].
  now rewrite IH.
Qed.

(** Closes a goal about an attempt whose final world is already known. *)
Ltac finish_attempt :=
  eexists; eexists; split;
  [reflexivity | cbn; repeat split; try reflexivity; lia].

Lemma timerDelay_pos (ms : Z) : 1 <= timerDelay ms.
Proof.
  unfold timerDelay, TIMEOUT_MAX.
  destruct (Z.ltb_spec ms 1); cbn [orb]; [lia |].
  destruct (Z.ltb_spec 2147483647 ms); lia.
Qed.

Lemma timerDelay_in_range (ms : Z) :
  1 <= ms <= TIMEOUT_MAX -> timerDelay ms = ms.
Proof.
  unfold timerDelay, TIMEOUT_MAX. intros Hms.
  destruct (Z.ltb_spec ms 1); [lia |].
  destruct (Z.ltb_spec 2147483647 ms); [lia | reflexivity].
Qed.

Lemma spaced_weaken (gap gap' : Z) (ts : list Z) :
  gap' <= gap -> spaced gap ts -> spaced gap' ts.
Proof.
  intros Hle. induction ts as [| t ts IH]; [trivial |].
  destruct ts as [| t' ts]; [trivial |].
  intros [Hgap Hrest]. split; [lia | now apply IH].
Qed.

Section ExecutorFacts.

Variable env : Env.
Variable cfg : Config.

(** An API URL that does not parse: [new URL] throws before anything is
    sent. *)
Lemma makeRequest_fuel_bad_url (fuel : nat) (snList : list string)
    (retryCount : Z) (w : World) :
  pathnameOf env (API_URL cfg) = None ->
  makeRequest_fuel env cfg (S fuel) snList retryCount w
  = Some (Throw (ExnTypeError "Invalid URL"), w).
Proof.
  intros Hurl. cbn [makeRequest_fuel].
  unfold bind, Date_now, new_URL_pathname. now rewrite Hurl.
Qed.

(** One attempt of [makeRequest], case by case. *)
Lemma makeRequest_fuel_step (path : string)
    (Hurl : pathnameOf env (API_URL cfg) = Some path)
    (fuel : nat) (snList : list string) (retryCount : Z) (w : World) :
  makeRequest_fuel env cfg (S fuel) snList retryCount w
  = let req := signedRequest cfg path snList (clock w) in
    match respond env (posts w) req with
    | Resolved d => Some (Return d, afterPost env w req)
    | Rejected e =>
        if isRetryable (ExnAxios e) then
          if retryCount <? MAX_RETRIES cfg then
            makeRequest_fuel env cfg fuel snList (retryCount + 1)
              (afterSleep env (RETRY_DELAY_MS cfg) (afterPost env w req))
          else Some (Throw (exhausted cfg e), afterPost env w req)
        else Some (Throw (ExnAxios e), afterPost env w req)
    end.
Proof.
  cbn [makeRequest_fuel].
  unfold bind, try_catch, Date_now, new_URL_pathname, axios_post.
  rewrite Hurl. unfold ret. cbv zeta.
  destruct (respond env (posts w) _) as [d | e]; [reflexivity |].
  destruct (isRetryable (ExnAxios e)); [| reflexivity].
  destruct (retryCount <? (MAX_RETRIES cfg)); reflexivity.
Qed.

(** Whatever the platform and the endpoint do, [makeRequest] completes; it
    never turns the clock back and never touches the queue. *)
Lemma makeRequest_fuel_total (snList : list string) :
  forall (m fuel : nat) (retryCount : Z) (w : World),
    MAX_RETRIES cfg - retryCount <= Z.of_nat m -> (m < fuel)%nat ->
    exists r w',
      makeRequest_fuel env cfg fuel snList retryCount w = Some (r, w')
      /\ clock w <= clock w'
      /\ queue w' = queue w
      /\ (posts w <= posts w')%nat.
Proof.
  destruct (pathnameOf env (API_URL cfg)) as [path |] eqn:Hurl.
  - induction m as [| m IH]; intros fuel retryCount w Hm Hfuel;
      (destruct fuel as [| fuel]; [lia |]);
      rewrite (makeRequest_fuel_step path Hurl); cbv zeta;
      destruct (respond env (posts w) _) as [d | e];
      try finish_attempt.
    + destruct (isRetryable (ExnAxios e));
        [destruct (Z.ltb_spec retryCount (MAX_RETRIES cfg)); [lia |] |];
        finish_attempt.
    + destruct (isRetryable (ExnAxios e));
        [destruct (Z.ltb_spec retryCount (MAX_RETRIES cfg)) |];
        try finish_attempt.
      destruct (IH fuel (retryCount + 1)
                   (afterSleep env (RETRY_DELAY_MS cfg)
                      (afterPost env w
                         (signedRequest cfg path snList (clock w)))))
        as (r & w' & Heq & Hclock & Hqueue & Hposts); [lia | lia |].
      exists r, w'. split; [exact Heq |]. cbn in Hclock, Hqueue, Hposts.
      pose proof (timerDelay_pos (RETRY_DELAY_MS cfg)).
      repeat split; [lia | exact Hqueue | lia].
  - intros m fuel retryCount w _ Hfuel. destruct fuel as [| fuel]; [lia |].
    rewrite makeRequest_fuel_bad_url by assumption.
    exists (Throw (ExnTypeError "Invalid URL")), w. repeat split; lia.
Qed.

Lemma makeRequest_total (snList : list string) (retryCount : Z) (w : World) :
  exists r w',
    makeRequest env cfg snList retryCount w = Some (r, w')
    /\ clock w <= clock w'
    /\ queue w' = queue w
    /\ (posts w <= posts w')%nat.
Proof.
  unfold makeRequest.
  apply (makeRequest_fuel_total snList
           (Z.to_nat (MAX_RETRIES cfg - retryCount))); lia.
Qed.

(** Any run of [makeRequest] with a parsed URL, whatever the endpoint
    answers: [n] retries, within the budget; the events are attempt, timer,
    attempt, ...; every call carries the request signed at the moment it is
    issued; each retry is issued at least one timer delay after the
    attempt before it. *)
Lemma makeRequest_fuel_run (path : string)
    (Hurl : pathnameOf env (API_URL cfg) = Some path)
    (snList : list string) :
  forall (m fuel : nat) (retryCount : Z) (w : World),
    MAX_RETRIES cfg - retryCount <= Z.of_nat m -> (m < fuel)%nat ->
    exists r w' evs (n : nat),
      makeRequest_fuel env cfg fuel snList retryCount w = Some (r, w')
      /\ Z.of_nat n <= Z.max 0 (MAX_RETRIES cfg - retryCount)
      /\ trace w' = trace w ++ evs
      /\ map shape evs
         = SPost :: List.concat (repeat [SSleep (RETRY_DELAY_MS cfg); SPost] n)
      /\ posts w' = (posts w + n + 1)%nat
      /\ naps w' = (naps w + n)%nat
      /\ Forall (fun p => snd p = signedRequest cfg path snList (fst p))
                (postsOf evs)
      /\ hd_error evs
         = Some (EvPost (clock w) (signedRequest cfg path snList (clock w)))
      /\ spaced (timerDelay (RETRY_DELAY_MS cfg)) (postTimes evs)
      /\ clock w + Z.of_nat n * timerDelay (RETRY_DELAY_MS cfg) <= clock w'.
Proof.
  induction m as [| m IH]; intros fuel retryCount w Hm Hfuel;
    (destruct fuel as [| fuel]; [lia |]);
    rewrite (makeRequest_fuel_step path Hurl); cbv zeta;
    set (req := signedRequest cfg path snList (clock w));
    assert (Hone : forall r : Res (option (list DeviceReading)),
      exists r' w' evs (n : nat),
        Some (r, afterPost env w req) = Some (r', w')
        /\ Z.of_nat n <= Z.max 0 (MAX_RETRIES cfg - retryCount)
        /\ trace w' = trace w ++ evs
        /\ map shape evs
           = SPost :: List.concat
                        (repeat [SSleep (RETRY_DELAY_MS cfg); SPost] n)
        /\ posts w' = (posts w + n + 1)%nat
        /\ naps w' = (naps w + n)%nat
        /\ Forall (fun p => snd p = signedRequest cfg path snList (fst p))
                  (postsOf evs)
        /\ hd_error evs = Some (EvPost (clock w) req)
        /\ spaced (timerDelay (RETRY_DELAY_MS cfg)) (postTimes evs)
        /\ clock w + Z.of_nat n * timerDelay (RETRY_DELAY_MS cfg) <= clock w')
      by (intros r;
          exists r, (afterPost env w req), [EvPost (clock w) req], 0%nat;
          cbn; repeat split; try lia; try reflexivity;
          constructor; [reflexivity | constructor]);
    destruct (respond env (posts w) req) as [d | e]; try apply Hone;
    (destruct (isRetryable (ExnAxios e)); [| apply Hone]);
    (destruct (Z.ltb_spec retryCount (MAX_RETRIES cfg)); [| apply Hone]).
  - lia.
  - destruct (IH fuel (retryCount + 1)
                 (afterSleep env (RETRY_DELAY_MS cfg) (afterPost env w req)))
      as (r & w' & evs & n & Heq & Hn & Htrace & Hshape & Hposts & Hnaps
          & Hfresh & Hhd & Hsp & Hclock); [lia | lia |].
    exists r, w',
      (EvPost (clock w) req :: EvSleep (RETRY_DELAY_MS cfg) :: evs), (S n).
    cbn in Htrace, Hposts, Hnaps, Hclock, Hhd.
    split; [exact Heq |]. split; [lia |].
    split; [rewrite Htrace, <- !app_assoc; reflexivity |].
    split; [cbn [map shape repeat List.concat app]; now rewrite Hshape |].
    split; [lia |]. split; [lia |].
    split; [constructor; [reflexivity | exact Hfresh] |].
    split; [reflexivity |].
    pose proof (timerDelay_pos (RETRY_DELAY_MS cfg)) as Hpos.
    split; [| nia].
    unfold postTimes in *. cbn [postsOf map fst].
    destruct evs as [| ev evs]; [discriminate |].
    injection Hhd as ->. cbn [postsOf map fst] in Hsp |- *.
    split; [lia | exact Hsp].
Qed.

(** Retryable rejections on every attempt: the retry budget is spent and
    the retries-exhausted error is thrown. *)
Lemma makeRequest_fuel_exhausts (path : string)
    (Hurl : pathnameOf env (API_URL cfg) = Some path)
    (snList : list string) :
  forall (m fuel : nat) (retryCount : Z) (w : World),
    retryCount + Z.of_nat m = MAX_RETRIES cfg -> (m < fuel)%nat ->
    (forall k req, (posts w <= k <= posts w + m)%nat ->
       exists e, respond env k req = Rejected e
                 /\ isRetryable (ExnAxios e) = true) ->
    exists e w',
      makeRequest_fuel env cfg fuel snList retryCount w
        = Some (Throw (exhausted cfg e), w')
      /\ posts w' = (posts w + m + 1)%nat.
Proof.
  induction m as [| m IH]; intros fuel retryCount w Hm Hfuel Hrej;
    (destruct fuel as [| fuel]; [lia |]);
    rewrite (makeRequest_fuel_step path Hurl); cbv zeta;
    destruct (Hrej (posts w) (signedRequest cfg path snList (clock w)))
      as (e & -> & ->); try lia.
  - destruct (Z.ltb_spec retryCount (MAX_RETRIES cfg)); [lia |].
    eexists e, _. split; [reflexivity |]. cbn. lia.
  - destruct (Z.ltb_spec retryCount (MAX_RETRIES cfg)); [| lia].
    destruct (IH fuel (retryCount + 1)
                 (afterSleep env (RETRY_DELAY_MS cfg)
                    (afterPost env w
                       (signedRequest cfg path snList (clock w)))))
      as (e' & w' & Heq & Hposts); [lia | lia | |].
    + intros k req Hk. apply Hrej. cbn in Hk. lia.
    + exists e', w'. split; [exact Heq |]. cbn in Hposts. lia.
Qed.

End ExecutorFacts.



(** The times of that run: a call every 2005 ms, the 5 ms being the time
    the endpoint takes to answer. *)
Example makeRequest_always_429_times :
  postTimes (final_trace (makeRequest (env_always 429) CONFIG
                                      ["SN-000"] 0 boot))
  = [1700000000000; 1700000002005; 1700000004010; 1700000006015].
Proof. vm_compute. reflexivity. Qed.

Lemma isRetryable_iff (e : AxiosError) :
  isRetryable (ExnAxios e) = true
  <-> response_status e = Some 429 \/ code e = Some "ECONNREFUSED".
Proof.
  unfold isRetryable. rewrite orb_true_iff.
  destruct (response_status e) as [st |], (code e) as [c |];
    rewrite ?Z.eqb_eq, ?String.eqb_eq;
    intuition (try congruence; try discriminate).
Qed.

(** What the test at the head of the [catch] block does with a rejection
    of the first attempt: status 429 and code ECONNREFUSED lead to the
    backoff timer and the next attempt, anything else is rethrown as it
    is. *)
Lemma makeRequest_retry_test (env : Env) (cfg : Config) (path : string)
    (snList : list string) (w : World) (e : AxiosError) :
  pathnameOf env (API_URL cfg) = Some path ->
  let req := signedRequest cfg path snList (clock w) in
  respond env (posts w) req = Rejected e ->
  (isRetryable (ExnAxios e) = false ->
     makeRequest env cfg snList 0 w
     = Some (Throw (ExnAxios e), afterPost env w req))
  /\ (isRetryable (ExnAxios e) = true -> 0 < MAX_RETRIES cfg ->
        makeRequest env cfg snList 0 w
        = makeRequest env cfg snList 1
            (afterSleep env (RETRY_DELAY_MS cfg) (afterPost env w req)))
  /\ (isRetryable (ExnAxios e) = true -> MAX_RETRIES cfg <= 0 ->
        makeRequest env cfg snList 0 w
        = Some (Throw (exhausted cfg e), afterPost env w req)).
Proof.
  intros Hurl req Hrej.
  unfold makeRequest. rewrite (makeRequest_fuel_step env cfg path Hurl).
  cbv zeta. fold req. rewrite Hrej.
  split; [| split].
  - intros ->. reflexivity.
  - intros -> Hmax. destruct (Z.ltb_spec 0 (MAX_RETRIES cfg)); [| lia].
    replace (Z.to_nat (MAX_RETRIES cfg - 0))
      with (S (Z.to_nat (MAX_RETRIES cfg - 1))) by lia.
    reflexivity.
  - intros -> Hmax. destruct (Z.ltb_spec 0 (MAX_RETRIES cfg)); [lia |].
    reflexivity.
Qed.

(** C4, evaluated where it fails.  With the shipped configuration and an
    endpoint that cannot be reached, the connection errors EHOSTUNREACH,
    ENOTFOUND and ETIMEDOUT do not pass the retry test: [makeRequest]
    rethrows them after a single call, with no timer and no second
    attempt.  Only the connection error ECONNREFUSED is retried, like
    status 429: four calls, three timers. *)
Theorem unreachable_not_retried :
  let attempts c :=
    map shape (final_trace (makeRequest (env_unreachable c) CONFIG
                                        ["SN-000"] 0 boot)) in
  let thrown c :=
    result_of (makeRequest (env_unreachable c) CONFIG ["SN-000"] 0 boot) in
  Forall (fun c =>
            isRetryable (ExnAxios (network_error c)) = false
            /\ attempts c = [SPost]
            /\ thrown c = Some (Throw (ExnAxios (network_error c))))
         ["EHOSTUNREACH"; "ENOTFOUND"; "ETIMEDOUT"]
  /\ isRetryable (ExnAxios (network_error "ECONNREFUSED")) = true
  /\ attempts "ECONNREFUSED"
     = [SPost; SSleep 2000; SPost; SSleep 2000; SPost; SSleep 2000; SPost]
  /\ map shape (final_trace (makeRequest (env_always 429) CONFIG
                                         ["SN-000"] 0 boot))
     = [SPost; SSleep 2000; SPost; SSleep 2000; SPost; SSleep 2000; SPost]
  /\ map shape (final_trace (makeRequest (env_always 401) CONFIG
                                         ["SN-000"] 0 boot))
     = [SPost].
Proof.
  cbv zeta. split.
  - repeat constructor; vm_compute; reflexivity.
  - repeat split; vm_compute; reflexivity.
Qed.

(* ------------------------------------------------------------------ *)
(** *** Recovery after transient failures                               *)

Lemma toString_inj (a b : Z) : toString a = toString b -> a = b.
Proof.
  unfold toString. intros Heq.
  assert (Hnn : forall z, Z.to_int z <> Decimal.Pos Decimal.Nil
                          /\ Z.to_int z <> Decimal.Neg Decimal.Nil).
  { intros [| p | p]; cbn; split; try discriminate;
      intros [= Hp]; now apply (DecimalPos.Unsigned.to_uint_nonnil p). }
  assert (Hint : Some (Z.to_int a) = Some (Z.to_int b)).
  { rewrite <- (NilZero.isi (Z.to_int a)) by apply Hnn.
    rewrite <- (NilZero.isi (Z.to_int b)) by apply Hnn.
    now rewrite Heq. }
  injection Hint as Hint.
  rewrite <- (DecimalZ.of_to a), <- (DecimalZ.of_to b). now rewrite Hint.
Qed.

Lemma spaced_above (gap t : Z) (ts : list Z) :
  0 < gap -> spaced gap (t :: ts) -> Forall (fun x => t < x) ts.
Proof.
  intros Hgap. revert t.
  induction ts as [| t' ts IH]; intros t Hsp; constructor.
  - cbn in Hsp. lia.
  - destruct Hsp as [Hle Hsp]. apply IH in Hsp.
    eapply Forall_impl; [| exact Hsp]. cbn. intros; lia.
Qed.

Lemma spaced_NoDup (gap : Z) (ts : list Z) :
  0 < gap -> spaced gap ts -> NoDup ts.
Proof.
  intros Hgap. induction ts as [| t ts IH]; intros Hsp; constructor.
  - intros Hin. pose proof (spaced_above gap t ts Hgap Hsp) as Hall.
    rewrite Forall_forall in Hall. specialize (Hall t Hin). lia.
  - apply IH. destruct ts; [exact I | apply Hsp].
Qed.

Lemma NoDup_map_injective {X Y : Type} (f : X -> Y) (l : list X) :
  (forall a b, f a = f b -> a = b) -> NoDup l -> NoDup (map f l).
Proof.
  intros Hinj. induction 1 as [| x l Hnotin _ IH]; cbn; constructor.
  - intros Hin. apply in_map_iff in Hin. destruct Hin as (y & Hy & Hin).
    apply Hinj in Hy. now subst.
  - exact IH.
Qed.

Lemma NoDup_of_map {X Y : Type} (f : X -> Y) (l : list X) :
  NoDup (map f l) -> NoDup l.
Proof.
  induction l as [| x l IH]; cbn; intros Hnd; constructor;
    inversion Hnd as [| ? ? Hnotin Hrest]; subst.
  - intros Hin. apply Hnotin. now apply in_map.
  - now apply IH.
Qed.

(** The hexadecimal rendering loses nothing: equal renderings come from
    equal bytes. *)
Lemma hex_digit_inj (i j : Z) :
  0 <= i < 16 -> 0 <= j < 16 -> hex_digit i = hex_digit j -> i = j.
Proof.
  intros Hi Hj Heq.
  assert (Htable :
    forallb (fun a =>
      forallb (fun b =>
        implb (Ascii.eqb (hex_digit (Z.of_nat a)) (hex_digit (Z.of_nat b)))
              (Nat.eqb a b))
        (seq 0 16))
      (seq 0 16) = true) by reflexivity.
  rewrite forallb_forall in Htable.
  specialize (Htable (Z.to_nat i) ltac:(apply in_seq; lia)).
  rewrite forallb_forall in Htable.
  specialize (Htable (Z.to_nat j) ltac:(apply in_seq; lia)).
  rewrite !Z2Nat.id in Htable by lia.
  rewrite Heq, Ascii.eqb_refl in Htable. cbn in Htable.
  apply Nat.eqb_eq in Htable. lia.
Qed.

Lemma hex_of_bytes_inj (l1 l2 : list Z) :
  Forall (fun b => 0 <= b < 256) l1 ->
  Forall (fun b => 0 <= b < 256) l2 ->
  hex_of_bytes l1 = hex_of_bytes l2 -> l1 = l2.
Proof.
  unfold hex_of_bytes. intros H1 H2 Heq.
  apply (f_equal list_ascii_of_string) in Heq.
  rewrite !list_ascii_of_string_of_list_ascii in Heq.
  revert l2 H2 Heq.
  induction H1 as [| a l1 Ha _ IH]; intros l2 H2 Heq;
    destruct H2 as [| b l2 Hb H2]; cbn in Heq; try discriminate;
    [reflexivity |].
  injection Heq as Hhi Hlo Hrest.
  apply hex_digit_inj in Hhi;
    [| split; [apply Z.div_pos | apply Z.div_lt_upper_bound]; lia
     | split; [apply Z.div_pos | apply Z.div_lt_upper_bound]; lia].
  apply hex_digit_inj in Hlo; [| apply Z.mod_pos_bound; lia ..].
  f_equal; [| now apply IH].
  rewrite (Z.div_mod a 16), (Z.div_mod b 16) by lia. now rewrite Hhi, Hlo.
Qed.

Lemma append_inj_r (s a b : string) : (s ++ a = s ++ b)%string -> a = b.
Proof.
  induction s as [| c s IH]; cbn; [trivial |]. intros [= Heq]. now apply IH.
Qed.

(** Equal signatures mean that MD5 gives the same digest for the two
    signed messages. *)
Lemma generateSignature_digest (url token t1 t2 : string) :
  generateSignature url token t1 = generateSignature url token t2 ->
  MD5.digest (bytes_of_string (url ++ token ++ t1)%string)
  = MD5.digest (bytes_of_string (url ++ token ++ t2)%string).
Proof.
  unfold generateSignature. cbv zeta.
  apply hex_of_bytes_inj; apply digest_range.
Qed.

Lemma signedMessage_inj (cfg : Config) (url : string) (t1 t2 : Z) :
  signedMessage cfg url t1 = signedMessage cfg url t2 -> t1 = t2.
Proof.
  unfold signedMessage. intros Heq.
  now apply append_inj_r, append_inj_r, toString_inj in Heq.
Qed.

Section RecoveryFacts.

Variable env : Env.
Variable cfg : Config.

(** [k] retryable rejections, then an accepted call. *)
Lemma makeRequest_fuel_recovers (path : string)
    (Hurl : pathnameOf env (API_URL cfg) = Some path)
    (snList : list string) (d : option (list DeviceReading)) :
  forall (k fuel : nat) (retryCount : Z) (w : World),
    retryCount + Z.of_nat k <= MAX_RETRIES cfg -> (k < fuel)%nat ->
    (forall j req, (posts w <= j < posts w + k)%nat ->
       exists e, respond env j req = Rejected e
                 /\ isRetryable (ExnAxios e) = true) ->
    (forall req, sn_list req = snList ->
       respond env (posts w + k) req = Resolved d) ->
    exists w',
      makeRequest_fuel env cfg fuel snList retryCount w
        = Some (Return d, w')
      /\ posts w' = (posts w + (k + 1))%nat.
Proof.
  induction k as [| k IH]; intros fuel retryCount w Hk Hfuel Hrej Hok;
    (destruct fuel as [| fuel]; [lia |]);
    rewrite (makeRequest_fuel_step env cfg path Hurl); cbv zeta.
  - specialize (Hok (signedRequest cfg path snList (clock w)) eq_refl).
    rewrite Nat.add_0_r in Hok. rewrite Hok.
    eexists. split; [reflexivity |]. cbn. lia.
  - destruct (Hrej (posts w) (signedRequest cfg path snList (clock w)))
      as (e & -> & ->); [lia |].
    destruct (Z.ltb_spec retryCount (MAX_RETRIES cfg)); [| lia].
    set (req := signedRequest cfg path snList (clock w)).
    set (w2 := afterSleep env (RETRY_DELAY_MS cfg) (afterPost env w req)).
    destruct (IH fuel (retryCount + 1) w2) as (w' & Heq & Hposts);
      [lia | lia | | |].
    + intros j r Hj. apply Hrej. cbn in Hj. lia.
    + intros r Hr.
      replace (posts w2 + k)%nat with (posts w + S k)%nat by (cbn; lia).
      now apply Hok.
    + exists w'. split; [exact Heq |]. cbn in Hposts. lia.
Qed.

End RecoveryFacts.

(** C6. After [k < MAX_RETRIES] retryable rejections followed by an
    accepted call, [makeRequest] returns the accepted result and the
    endpoint was called exactly [k + 1] times.  Each call carried the
    timestamp read from the clock when it was issued and the signature
    computed from that very timestamp.  Each retry was issued at least one
    timer delay, hence at least 1 ms, after the call before it, so no two
    calls carried the same timestamp, the same signed message or the same
    timestamp/signature pair; and two calls can only have carried the same
    signature if MD5 gives one digest for their two different messages. *)
Theorem makeRequest_recovers (env : Env) (cfg : Config) (path : string)
    (snList : list string) (w : World) (k : nat)
    (d : option (list DeviceReading)) :
  Z.of_nat k < MAX_RETRIES cfg ->
  pathnameOf env (API_URL cfg) = Some path ->
  (forall j req, (posts w <= j < posts w + k)%nat ->
     exists e, respond env j req = Rejected e
               /\ isRetryable (ExnAxios e) = true) ->
  (forall req, sn_list req = snList ->
     respond env (posts w + k) req = Resolved d) ->
  exists w' evs,
    makeRequest env cfg snList 0 w = Some (Return d, w')
    /\ posts w' = (posts w + (k + 1))%nat
    /\ trace w' = trace w ++ evs
    /\ List.length (postsOf evs) = (k + 1)%nat
    /\ Forall (fun p =>
                 sn_list (snd p) = snList
                 /\ hdr_timestamp (snd p) = toString (fst p)
                 /\ hdr_signature (snd p)
                    = generateSignature path (TOKEN cfg)
                                        (hdr_timestamp (snd p)))
              (postsOf evs)
    /\ spaced (timerDelay (RETRY_DELAY_MS cfg)) (postTimes evs)
    /\ NoDup (postTimes evs)
    /\ NoDup (map (fun p => hdr_timestamp (snd p)) (postsOf evs))
    /\ NoDup (map (fun p => signedMessage cfg path (fst p)) (postsOf evs))
    /\ NoDup (map (fun p => (hdr_timestamp (snd p), hdr_signature (snd p)))
                  (postsOf evs))
    /\ (forall p q,
          In p (postsOf evs) -> In q (postsOf evs) ->
          hdr_signature (snd p) = hdr_signature (snd q) ->
          fst p = fst q
          \/ (signedMessage cfg path (fst p) <> signedMessage cfg path (fst q)
              /\ MD5.digest (bytes_of_string (signedMessage cfg path (fst p)))
                 = MD5.digest
                     (bytes_of_string (signedMessage cfg path (fst q))))).
Proof.
  intros Hk Hurl Hrej Hok. unfold makeRequest.
  destruct (makeRequest_fuel_recovers env cfg path Hurl snList d k
              (S (Z.to_nat (MAX_RETRIES cfg - 0))) 0 w)
    as (w' & Heq & Hposts); [lia | lia | exact Hrej | exact Hok |].
  destruct (makeRequest_fuel_run env cfg path Hurl snList
              (Z.to_nat (MAX_RETRIES cfg - 0))
              (S (Z.to_nat (MAX_RETRIES cfg - 0))) 0 w)
    as (r & w2 & evs & n & Heq2 & _ & Htrace & Hshape & Hposts2 & _ & Hfresh
        & _ & Hsp & _); [lia | lia |].
  rewrite Heq in Heq2. injection Heq2 as <- <-.
  assert (Hn : n = k) by lia. subst n.
  pose proof (timerDelay_pos (RETRY_DELAY_MS cfg)) as Hpos.
  assert (Htimes : NoDup (postTimes evs))
    by (apply (spaced_NoDup (timerDelay (RETRY_DELAY_MS cfg))); [lia | exact Hsp]).
  assert (Hstamps : map (fun p => hdr_timestamp (snd p)) (postsOf evs)
                    = map toString (postTimes evs)).
  { unfold postTimes. rewrite map_map. apply map_ext_in.
    intros p Hin. rewrite Forall_forall in Hfresh.
    now rewrite (Hfresh p Hin). }
  assert (Hnd : NoDup (map (fun p => hdr_timestamp (snd p)) (postsOf evs))).
  { rewrite Hstamps. apply NoDup_map_injective; [apply toString_inj |].
    exact Htimes. }
  exists w', evs. split; [exact Heq |]. split; [exact Hposts |].
  split; [exact Htrace |]. split.
  { rewrite <- (postsOf_shape_count evs), Hshape.
    cbn [count_posts]. rewrite count_posts_rounds. lia. }
  split.
  { eapply Forall_impl; [| exact Hfresh]. cbn. intros p ->. cbn. auto. }
  split; [exact Hsp |]. split; [exact Htimes |]. split; [exact Hnd |].
  split.
  { replace (map (fun p => signedMessage cfg path (fst p)) (postsOf evs))
      with (map (signedMessage cfg path) (postTimes evs))
      by (unfold postTimes; now rewrite map_map).
    apply NoDup_map_injective; [apply signedMessage_inj | exact Htimes]. }
  split; [apply (NoDup_of_map fst); now rewrite map_map |].
  intros p q Hp Hq Hsig.
  rewrite Forall_forall in Hfresh.
  rewrite (Hfresh p Hp), (Hfresh q Hq) in Hsig. cbn in Hsig.
  destruct (Z.eq_dec (fst p) (fst q)) as [Hsame | Hdiff]; [now left |].
  right. split.
  - intros Hmsg. now apply signedMessage_inj in Hmsg.
  - now apply generateSignature_digest in Hsig.
Qed.

Lemma makeRequest_recovers_witness :
  exists w' evs,
    makeRequest (env_failing_first 2 429) CONFIG ["SN-000"] 0 boot
      = Some (Return (Some [reading_of "SN-000"]), w')
    /\ posts w' = 3%nat
    /\ trace w' = evs
    /\ NoDup (map (fun p => hdr_timestamp (snd p)) (postsOf evs))
    /\ map (fun p => (hdr_timestamp (snd p), hdr_signature (snd p)))
           (postsOf evs)
       = [("1700000000000", "192e6a35c45c5f24d5103c72c4ba77e9");
          ("1700000002005", "15d2cc3873fa5c88aaf775bcccfb37b0");
          ("1700000004010", "7b653d2c8ebffff8c99b9266fcc0db82")].
Proof.
  destruct (makeRequest_recovers (env_failing_first 2 429) CONFIG
              "/device/real/query" ["SN-000"] boot 2
              (Some [reading_of "SN-000"]))
    as (w' & evs & Heq & Hposts & Htrace & _ & _ & _ & _ & Hnd & _).
  - cbn. lia.
  - reflexivity.
  - intros j req Hj. exists (http_error 429). split; [| reflexivity].
    cbn in Hj. cbn.
    destruct j as [| [| j]]; [reflexivity | reflexivity | lia].
  - intros req Hreq. cbn. unfold accept. now rewrite Hreq.
  - exists w', evs. split; [exact Heq |]. split; [exact Hposts |].
    split; [exact Htrace |]. split; [exact Hnd |].
    assert (Hrun : final_trace
                     (makeRequest (env_failing_first 2 429) CONFIG
                                  ["SN-000"] 0 boot) = evs)
      by (rewrite Heq; exact Htrace).
    rewrite <- Hrun. vm_compute. reflexivity.
Defined.

(* ================================================================== *)
(** ** Properties of the rate-limited queue                             *)
(* ================================================================== *)

Section QueueFacts.

Variable env : Env.

(** [execute] waits if it must, records the admission, then hands over
    to the operation. *)
Lemma execute_eq {A} (fn : M A) (w : World) :
  execute env fn w = fn (admitted env w).
Proof.
  unfold execute, admitted, gate, bind, Date_now, getQueue,
    setLastRequestTime.
  destruct (clock w - lastRequestTime (queue w) <? rateLimitMs (queue w));
    reflexivity.
Qed.

Lemma gate_clock (w : World) : clock w <= clock (gate env w).
Proof.
  unfold gate.
  destruct (clock w - lastRequestTime (queue w) <? rateLimitMs (queue w));
    [| lia].
  cbn.
  pose proof (timerDelay_pos
                (rateLimitMs (queue w)
                 - (clock w - lastRequestTime (queue w)))).
  lia.
Qed.

(** The wait asked of the timer is [rateLimitMs - elapsed]; it is honoured
    as long as a timer can run that long. *)
Lemma gate_clock_gap (w : World) :
  rateLimitMs (queue w) <= TIMEOUT_MAX ->
  lastRequestTime (queue w) <= clock w ->
  lastRequestTime (queue w) + rateLimitMs (queue w) <= clock (gate env w).
Proof.
  intros Hrate Hlast. unfold gate.
  destruct (Z.ltb_spec (clock w - lastRequestTime (queue w))
                       (rateLimitMs (queue w))); [| lia].
  cbn. rewrite timerDelay_in_range by lia. lia.
Qed.

Lemma admitted_queue (w : World) :
  queue (admitted env w)
  = {| rateLimitMs := rateLimitMs (queue w);
       lastRequestTime := clock (admitted env w) |}.
Proof.
  unfold admitted, recorded, gate.
  destruct (clock w - lastRequestTime (queue w) <? rateLimitMs (queue w));
    reflexivity.
Qed.

Lemma admitted_clock (w : World) : clock w <= clock (admitted env w).
Proof. exact (gate_clock w). Qed.

Lemma admitted_clock_gap (w : World) :
  rateLimitMs (queue w) <= TIMEOUT_MAX ->
  lastRequestTime (queue w) <= clock w ->
  lastRequestTime (queue w) + rateLimitMs (queue w)
  <= clock (admitted env w).
Proof. exact (gate_clock_gap w). Qed.

Lemma admitted_posts (w : World) : posts (admitted env w) = posts w.
Proof.
  unfold admitted, recorded, gate.
  destruct (clock w - lastRequestTime (queue w) <? rateLimitMs (queue w));
    reflexivity.
Qed.

(** One round of the caller of [admissions]. *)
Lemma admissions_cons {A} (fn : M A) (rest : list (M A)) (w : World) :
  admissions env (fn :: rest) w
  = match fn (admitted env w) with
    | None => None
    | Some (_, w1) =>
        match admissions env rest w1 with
        | None => None
        | Some (Throw e, w2) => Some (Throw e, w2)
        | Some (Return ts, w2) =>
            Some (Return (lastRequestTime (queue w1) :: ts), w2)
        end
    end.
Proof.
  cbn [admissions]. unfold bind at 1 2. unfold try_catch, bind at 1.
  rewrite execute_eq.
  destruct (fn (admitted env w)) as [[[a | e] w1] |]; reflexivity.
Qed.

Lemma admissions_spaced {A} (fns : list (M A)) :
  Forall Polite fns ->
  forall w,
    rateLimitMs (queue w) <= TIMEOUT_MAX ->
    lastRequestTime (queue w) <= clock w ->
    exists ts w',
      admissions env fns w = Some (Return ts, w')
      /\ List.length ts = List.length fns
      /\ rateLimitMs (queue w') = rateLimitMs (queue w)
      /\ spaced (rateLimitMs (queue w)) (lastRequestTime (queue w) :: ts).
Proof.
  induction 1 as [| fn rest Hfn _ IH]; intros w Hrate Hlast.
  - exists [], w. repeat split.
  - rewrite admissions_cons.
    destruct (Hfn (admitted env w)) as (r & w1 & -> & Hclock & Hqueue).
    pose proof (admitted_queue w) as Hq.
    destruct (IH w1) as (ts & w2 & -> & Hlen & Hrate' & Hsp).
    { now rewrite Hqueue, Hq. }
    { rewrite Hqueue, Hq. cbn. exact Hclock. }
    rewrite Hqueue, Hq in Hsp, Hrate' |- *. cbn in Hsp, Hrate' |- *.
    exists (clock (admitted env w) :: ts), w2.
    split; [reflexivity |]. split; [cbn [List.length]; now rewrite Hlen |].
    split; [exact Hrate' |]. split; [| exact Hsp].
    now apply admitted_clock_gap.
Qed.

End QueueFacts.

(** C1, as the code has it.  Entered with [elapsed >= rateLimitMs] since
    the last recorded admission, [execute] starts the operation at once;
    entered earlier, it first awaits a timer set to exactly
    [rateLimitMs - elapsed], which lasts that long if a timer can.  On a
    queue whose [rateLimitMs] is at most 2147483647, the longest delay a
    timer honours, and whose recorded admission is not in the future, the
    admission times recorded by successive calls are at least
    [rateLimitMs] apart, whatever the operations do and however long they
    take. *)
Theorem execute_min_interval (env : Env) (A : Type) :
  (forall (fn : M A) (w : World),
     let elapsed := clock w - lastRequestTime (queue w) in
     let rate := rateLimitMs (queue w) in
     (rate <= elapsed ->
        execute env fn w = fn (recorded (clock w) w))
     /\ (elapsed < rate ->
           let w' := afterSleep env (rate - elapsed) w in
           execute env fn w = fn (recorded (clock w') w')
           /\ trace w' = trace w ++ [EvSleep (rate - elapsed)]
           /\ (rate - elapsed <= TIMEOUT_MAX ->
               clock w + (rate - elapsed) <= clock w')))
  /\ (forall (fns : list (M A)) (w : World),
        rateLimitMs (queue w) <= TIMEOUT_MAX ->
        lastRequestTime (queue w) <= clock w ->
        Forall Polite fns ->
        exists ts w',
          admissions env fns w = Some (Return ts, w')
          /\ List.length ts = List.length fns
          /\ spaced (rateLimitMs (queue w)) ts).
Proof.
  split.
  - intros fn w elapsed rate. rewrite execute_eq.
    unfold admitted, gate. fold elapsed rate. split; intros Hcmp.
    + destruct (Z.ltb_spec elapsed rate); [lia | reflexivity].
    + destruct (Z.ltb_spec elapsed rate); [| lia].
      cbn. repeat split. intros Hfit.
      rewrite timerDelay_in_range by lia. lia.
  - intros fns w Hrate Hlast Hpolite.
    destruct (admissions_spaced env fns Hpolite w Hrate Hlast)
      as (ts & w' & Heq & Hlen & _ & Hsp).
    exists ts, w'. split; [exact Heq |]. split; [exact Hlen |].
    destruct ts; [exact I | apply Hsp].
Qed.

Lemma lasting_Polite {A} (ms : N) (r : Res A) : Polite (lasting ms r).
Proof.
  intros w. eexists. eexists. split; [reflexivity |].
  cbn. split; [lia | reflexivity].
Qed.

Lemma execute_min_interval_witness :
  execute env_ok (lasting 30 (Return tt)) (running 1000 0 1700000000000)
    = lasting 30 (Return tt)
        (recorded 1700000000000 (running 1000 0 1700000000000))
  /\ trace (afterSleep env_ok 600 (running 1000 1699999999600 1700000000000))
     = [EvSleep 600]
  /\ exists ts w',
       admissions env_ok
         [lasting 1500 (Return tt);
          lasting 10 (Throw (ExnError "boom"));
          lasting 0 (Return tt)]
         (running 1000 0 1700000000000)
       = Some (Return ts, w')
       /\ spaced 1000 ts.
Proof.
  destruct (execute_min_interval env_ok unit) as [Hcall Hseq].
  split; [| split].
  - destruct (Hcall (lasting 30 (Return tt)) (running 1000 0 1700000000000))
      as [Hnow _].
    apply Hnow. cbn. lia.
  - destruct (Hcall (lasting 30 (Return tt))
                (running 1000 1699999999600 1700000000000)) as [_ Hlater].
    destruct Hlater as (_ & Htrace & _); [cbn; lia |].
    exact Htrace.
  - destruct (Hseq [lasting 1500 (Return tt);
                    lasting 10 (Throw (ExnError "boom"));
                    lasting 0 (Return tt)]
                   (running 1000 0 1700000000000))
      as (ts & w' & Heq & _ & Hsp).
    + cbn. unfold TIMEOUT_MAX. lia.
    + cbn. lia.
    + repeat constructor; apply lasting_Polite.
    + exists ts, w'. split; [exact Heq | exact Hsp].
Defined.

(** The admission times of that run: the slow first operation does not
    delay the second admission, the fast ones are held back. *)
Example admissions_three_calls :
  result_of
    (admissions env_ok
       [lasting 1500 (Return tt);
        lasting 10 (Throw (ExnError "boom"));
        lasting 0 (Return tt)]
       (running 1000 0 1700000000000))
  = Some (Return [1700000000000; 1700000001500; 1700000002500]).
Proof. vm_compute. reflexivity. Qed.

(** With an interval of 3000000000 ms, more than a timer can be set to,
    the second of two immediate calls asks for a timer of 3000000000 ms,
    which runs with a delay of 1 ms: the two admissions are recorded 1 ms
    apart. *)
Lemma execute_interval_beyond_timer_range :
  result_of
    (admissions env_ok
       [lasting 0 (Return tt); lasting 0 (Return tt)]
       (running 3000000000 0 1700000000000))
  = Some (Return [1700000000000; 1700000000001])
  /\ map shape
       (final_trace
          (admissions env_ok
             [lasting 0 (Return tt); lasting 0 (Return tt)]
             (running 3000000000 0 1700000000000)))
     = [SSleep 3000000000]
  /\ ~ spaced 3000000000 [1700000000000; 1700000000001].
Proof.
  split; [vm_compute; reflexivity |]. split; [vm_compute; reflexivity |].
  intros [Hgap _]. lia.
Qed.

(** C10, as the code has it.  [execute] assigns [lastRequestTime] once, to
    the clock value read after any waiting, and only then invokes [fn]:
    [fn] already runs in the world with the admission recorded.  The
    outcome of [execute] is the outcome of [fn], value or exception alike,
    so a throwing [fn] leaves the admission recorded.  On a queue whose
    [rateLimitMs] is at most 2147483647 and whose recorded admission is
    not in the future, the new value exceeds the previous one by at least
    [rateLimitMs]. *)
Theorem execute_records_then_runs (env : Env) (A : Type) (fn : M A)
    (w : World) :
  let w1 := admitted env w in
  execute env fn w = fn w1
  /\ queue w1 = {| rateLimitMs := rateLimitMs (queue w);
                   lastRequestTime := clock w1 |}
  /\ clock w <= lastRequestTime (queue w1)
  /\ posts w1 = posts w
  /\ (forall a w2, fn w1 = Some (Return a, w2) ->
        execute env fn w = Some (Return a, w2))
  /\ (forall e w2, fn w1 = Some (Throw e, w2) -> queue w2 = queue w1 ->
        execute env fn w = Some (Throw e, w2)
        /\ lastRequestTime (queue w2) = clock w1)
  /\ (rateLimitMs (queue w) <= TIMEOUT_MAX ->
      lastRequestTime (queue w) <= clock w ->
      lastRequestTime (queue w) + rateLimitMs (queue w)
      <= lastRequestTime (queue w1)).
Proof.
  intros w1. pose proof (admitted_clock env w) as Hmono. fold w1 in Hmono.
  pose proof (admitted_queue env w) as Hq. fold w1 in Hq.
  split; [apply execute_eq |]. split; [exact Hq |].
  split; [rewrite Hq; exact Hmono |]. split; [apply admitted_posts |].
  split; [| split].
  - intros a w2 Hfn. now rewrite execute_eq.
  - intros e w2 Hfn Hkeep. rewrite execute_eq. split; [exact Hfn |].
    rewrite Hkeep, Hq. reflexivity.
  - intros Hrate Hlast. rewrite Hq. cbn.
    now apply admitted_clock_gap.
Qed.

Lemma execute_records_then_runs_witness :
  let w := running 1000 1699999999600 1700000000000 in
  let w2 := {| clock := 1700000000610;
               queue := {| rateLimitMs := 1000;
                           lastRequestTime := 1700000000600 |};
               posts := 0;
               naps := 1;
               trace := [EvSleep 600] |} in
  execute env_ok (lasting 10 (Throw (ExnError "boom"))) w
    = Some (@Throw unit (ExnError "boom"), w2)
  /\ lastRequestTime (queue w2) = clock (admitted env_ok w)
  /\ lastRequestTime (queue w) + 1000
     <= lastRequestTime (queue (admitted env_ok w)).
Proof.
  intros w w2.
  destruct (execute_records_then_runs env_ok unit
              (lasting 10 (Throw (ExnError "boom"))) w)
    as (_ & _ & _ & _ & _ & Hthrow & Hgap).
  destruct (Hthrow (ExnError "boom") w2) as (Heq & Hlast).
  - vm_compute. reflexivity.
  - vm_compute. reflexivity.
  - split; [exact Heq |]. split; [exact Hlast |].
    apply Hgap; [cbn; unfold TIMEOUT_MAX; lia | cbn; lia].
Defined.

(** With an interval of 3000000000 ms, a call entered 0 ms after the
    recorded admission records the next one 1 ms later, not 3000000000 ms
    later. *)
Lemma execute_records_beyond_timer_range :
  let w := running 3000000000 1700000000000 1700000000000 in
  option_map (fun w' => lastRequestTime (queue w'))
             (final_world (execute env_ok (lasting 0 (Return tt)) w))
  = Some 1700000000001
  /\ ~ (lastRequestTime (queue w) + rateLimitMs (queue w)
        <= 1700000000001).
Proof.
  cbv zeta. split; [vm_compute; reflexivity |]. cbn. lia.
Qed.

(* ================================================================== *)
(** ** Properties of the driver                                         *)
(* ================================================================== *)

Lemma generateSerialNumbers_length (count : Z) :
  Z.of_nat (List.length (generateSerialNumbers count)) = Z.max 0 count.
Proof.
  unfold generateSerialNumbers. rewrite length_map, length_seq. lia.
Qed.

Section DriverFacts.

Variable env : Env.
Variable cfg : Config.

(** One iteration of the loop, by the outcome of the request. *)
Lemma processBatch_eq (acc : Acc) (batch : list string) (w : World) :
  processBatch env cfg acc batch w
  = match makeRequest env cfg batch 0 (admitted env w) with
    | None => None
    | Some (Return (Some readings), w1) =>
        Some (Return {| allResults := allResults acc ++ readings;
                        successCount :=
                          successCount acc + Z.of_nat (List.length batch);
                        failureCount := failureCount acc |}, w1)
    | Some (_, w1) =>
        Some (Return {| allResults := allResults acc;
                        successCount := successCount acc;
                        failureCount :=
                          failureCount acc + Z.of_nat (List.length batch) |},
              w1)
    end.
Proof.
  unfold processBatch, try_catch, bind. rewrite execute_eq.
  destruct (makeRequest env cfg batch 0 (admitted env w))
    as [[[[rs |] | e] w1] |]; reflexivity.
Qed.

(** The same, read off the outcome of the rate-limited request. *)
Lemma processBatch_by_outcome (acc : Acc) (batch : list string) (w : World) :
  processBatch env cfg acc batch w
  = match execute env (makeRequest env cfg batch 0) w with
    | None => None
    | Some (Return (Some readings), w1) =>
        Some (Return {| allResults := allResults acc ++ readings;
                        successCount :=
                          successCount acc + Z.of_nat (List.length batch);
                        failureCount := failureCount acc |}, w1)
    | Some (_, w1) =>
        Some (Return {| allResults := allResults acc;
                        successCount := successCount acc;
                        failureCount :=
                          failureCount acc + Z.of_nat (List.length batch) |},
              w1)
    end.
Proof. rewrite execute_eq. apply processBatch_eq. Qed.

Lemma execute_makeRequest_total (batch : list string) (w : World) :
  exists r w1,
    execute env (makeRequest env cfg batch 0) w = Some (r, w1)
    /\ (posts w <= posts w1)%nat.
Proof.
  rewrite execute_eq.
  destruct (makeRequest_total env cfg batch 0 (admitted env w))
    as (r & w1 & Hrun & _ & _ & Hposts).
  rewrite admitted_posts in Hposts. now exists r, w1.
Qed.

(** The loop is the bookkeeping of the outcomes, batch by batch, in
    order; it reaches every batch. *)
Lemma processBatches_credited (batches : list (list string)) :
  forall (acc : Acc) (w : World),
    exists w',
      processBatches env cfg acc batches w
      = Some (Return (credited acc batches
                               (batchOutcomes env cfg batches w)), w')
      /\ List.length (batchOutcomes env cfg batches w)
         = List.length batches
      /\ (posts w <= posts w')%nat.
Proof.
  induction batches as [| batch rest IH]; intros acc w.
  - exists w. cbn. repeat split. lia.
  - cbn [processBatches batchOutcomes]. unfold bind.
    rewrite processBatch_by_outcome.
    destruct (execute_makeRequest_total batch w) as (r & w1 & -> & Hp).
    cbn [credited List.length].
    destruct r as [[rs |] | e]; cbn [readingsOf];
      (match goal with
       | |- context [processBatches env cfg ?a rest w1] =>
           destruct (IH a w1) as (w' & -> & Hlen & Hp')
       end;
       exists w'; split; [reflexivity |]; split; [now rewrite Hlen | lia]).
Qed.

(** Every identifier of every batch is counted on exactly one side. *)
Lemma credited_sum (batches : list (list string)) :
  forall (acc : Acc) (outcomes : list (Res (option (list DeviceReading)))),
    List.length outcomes = List.length batches ->
    successCount (credited acc batches outcomes)
    + failureCount (credited acc batches outcomes)
    = successCount acc + failureCount acc
      + Z.of_nat (List.length (List.concat batches))
    /\ successCount acc <= successCount (credited acc batches outcomes)
    /\ failureCount acc <= failureCount (credited acc batches outcomes).
Proof.
  induction batches as [| batch rest IH]; intros acc outcomes Hlen;
    destruct outcomes as [| r outcomes]; try discriminate;
    [cbn; lia |].
  cbn [credited List.concat]. rewrite length_app.
  injection Hlen as Hlen.
  match goal with
  | |- context [credited ?a rest outcomes] =>
      destruct (IH a outcomes Hlen) as (Hsum & Hs & Hf)
  end.
  destruct (readingsOf r); cbn in Hsum, Hs, Hf |- *; lia.
Qed.

Lemma gate_posts_trace (w : World) :
  postsOf (trace (gate env w)) = postsOf (trace w).
Proof.
  unfold gate.
  destruct (clock w - lastRequestTime (queue w) <? rateLimitMs (queue w));
    cbn; [| reflexivity].
  rewrite postsOf_app. cbn. now rewrite app_nil_r.
Qed.

Section Parsed.

Variable path : string.
Hypothesis Hurl : pathnameOf env (API_URL cfg) = Some path.

Lemma processBatches_posts (batches : list (list string)) :
  forall (acc : Acc) (w : World),
    exists acc' w',
      processBatches env cfg acc batches w = Some (Return acc', w')
      /\ (posts w + List.length batches <= posts w')%nat.
Proof.
  induction batches as [| batch rest IH]; intros acc w.
  - exists acc, w. cbn. split; [reflexivity | lia].
  - cbn [processBatches]. unfold bind. rewrite processBatch_eq.
    destruct (makeRequest_fuel_run env cfg path Hurl batch
                (Z.to_nat (MAX_RETRIES cfg - 0))
                (S (Z.to_nat (MAX_RETRIES cfg - 0))) 0 (admitted env w))
      as (r & w1 & evs & n & Hrun & _ & _ & _ & Hposts & _); [lia | lia |].
    unfold makeRequest. rewrite Hrun. rewrite admitted_posts in Hposts.
    destruct r as [[rs |] | e];
      (match goal with
       | |- context [processBatches env cfg ?a rest w1] =>
           destruct (IH a w1) as (acc' & w' & -> & Hp)
       end;
       exists acc', w'; split; [reflexivity | cbn [List.length]; lia]).
Qed.

(** With an endpoint that accepts everything: one call per batch, in
    order, all identifiers resolved. *)
Lemma processBatches_all_accepted (batches : list (list string)) :
  AllAccepted env ->
  forall (acc : Acc) (w : World),
    exists acc' w',
      processBatches env cfg acc batches w = Some (Return acc', w')
      /\ successCount acc'
         = successCount acc + Z.of_nat (List.length (List.concat batches))
      /\ failureCount acc' = failureCount acc
      /\ List.length (allResults acc')
         = (List.length (allResults acc)
            + List.length (List.concat batches))%nat
      /\ map (fun p => sn_list (snd p)) (postsOf (trace w'))
         = map (fun p => sn_list (snd p)) (postsOf (trace w)) ++ batches.
Proof.
  intros Hall.
  induction batches as [| batch rest IH]; intros acc w.
  - exists acc, w. cbn. rewrite app_nil_r. repeat split; lia.
  - cbn [processBatches]. unfold bind. rewrite processBatch_eq.
    unfold makeRequest.
    rewrite (makeRequest_fuel_step env cfg path Hurl). cbv zeta.
    set (w0 := admitted env w).
    destruct (Hall (posts w0) (signedRequest cfg path batch (clock w0)))
      as (rs & -> & Hrs).
    cbn in Hrs.
    match goal with
    | |- context [processBatches env cfg ?a rest ?v] =>
        destruct (IH a v) as (acc' & w' & -> & Hs & Hf & Hlen & Hord)
    end.
    cbn in Hs, Hf, Hlen, Hord.
    exists acc', w'. split; [reflexivity |].
    cbn [List.concat List.length]. rewrite length_app.
    rewrite length_app in Hlen.
    split; [lia |]. split; [exact Hf |]. split; [lia |].
    rewrite Hord, postsOf_app, map_app. cbn.
    rewrite gate_posts_trace, <- app_assoc. reflexivity.
Qed.

End Parsed.

End DriverFacts.

(** C8.  Each iteration of the loop runs the rate-limited request of its
    batch, which always completes, and credits the batch's identifiers
    once: to [successCount], with the readings appended, exactly when the
    request returned readings, and to [failureCount] when it threw (or
    returned nothing to spread).  So the run never aborts: it reaches
    every batch in order, its result is the bookkeeping of the outcomes of
    the requests, and [successCount + failureCount] is the population
    size.  With an API URL that parses every batch has had its network
    call; if moreover the endpoint accepts every call with one reading per
    identifier, all identifiers are resolved, none failed, the result
    holds one reading per identifier, and the batches went out in
    population order. *)
Theorem fetchDeviceData_accounting (env : Env) (cfg : Config) (count : Z)
    (w : World) :
  0 < BATCH_SIZE cfg ->
  (forall (acc : Acc) (batch : list string) (w0 : World),
     (exists r w1,
        execute env (makeRequest env cfg batch 0) w0 = Some (r, w1))
     /\ processBatch env cfg acc batch w0
        = match execute env (makeRequest env cfg batch 0) w0 with
          | None => None
          | Some (Return (Some readings), w1) =>
              Some (Return
                      {| allResults := allResults acc ++ readings;
                         successCount :=
                           successCount acc + Z.of_nat (List.length batch);
                         failureCount := failureCount acc |}, w1)
          | Some (_, w1) =>
              Some (Return
                      {| allResults := allResults acc;
                         successCount := successCount acc;
                         failureCount :=
                           failureCount acc
                           + Z.of_nat (List.length batch) |}, w1)
          end)
  /\ exists batches s w',
       createBatches (generateSerialNumbers count) (BATCH_SIZE cfg)
       = Some batches
       /\ fetchDeviceData env cfg count w = Some (Return s, w')
       /\ (let outcomes :=
             batchOutcomes env cfg batches
                           (withNewQueue (RATE_LIMIT_MS cfg) w) in
           let acc :=
             credited {| allResults := []; successCount := 0;
                         failureCount := 0 |} batches outcomes in
           List.length outcomes = List.length batches
           /\ sum_successCount s = successCount acc
           /\ sum_failureCount s = failureCount acc
           /\ data s = allResults acc)
       /\ totalDevices s = Z.max 0 count
       /\ sum_successCount s + sum_failureCount s = totalDevices s
       /\ 0 <= sum_successCount s
       /\ 0 <= sum_failureCount s
       /\ (forall path,
             pathnameOf env (API_URL cfg) = Some path ->
             (posts w + List.length batches <= posts w')%nat
             /\ (AllAccepted env ->
                 sum_successCount s = totalDevices s
                 /\ sum_failureCount s = 0
                 /\ Z.of_nat (List.length (data s)) = totalDevices s
                 /\ List.concat (map (fun p => sn_list (snd p))
                                     (postsOf (trace w')))
                    = List.concat (map (fun p => sn_list (snd p))
                                       (postsOf (trace w)))
                      ++ generateSerialNumbers count)).
Proof.
  intros Hsize. split.
  { intros acc batch w0. split; [| apply processBatch_by_outcome].
    destruct (execute_makeRequest_total env cfg batch w0) as (r & w1 & Hr & _).
    now exists r, w1. }
  unfold fetchDeviceData. rewrite createBatches_eq by assumption.
  set (sns := generateSerialNumbers count).
  set (batches := map (batchAt sns (BATCH_SIZE cfg))
                      (seq 0 (batchCount sns (BATCH_SIZE cfg)))).
  assert (Hcat : List.concat batches = sns).
  { unfold batches. rewrite concat_batchAt by assumption.
    apply firstn_all2.
    pose proof (batchCount_bounds sns (BATCH_SIZE cfg) Hsize) as Hc.
    cbn zeta in Hc. nia. }
  pose proof (generateSerialNumbers_length count) as Hpop. fold sns in Hpop.
  unfold bind, newQueue, Date_now, ret.
  fold (withNewQueue (RATE_LIMIT_MS cfg) w).
  set (acc0 := {| allResults := []; successCount := 0; failureCount := 0 |}).
  set (w0 := withNewQueue (RATE_LIMIT_MS cfg) w).
  destruct (processBatches_credited env cfg batches acc0 w0)
    as (w' & Hrun & Hlen & _).
  destruct (credited_sum batches acc0 (batchOutcomes env cfg batches w0) Hlen)
    as (Hsum & Hs & Hf).
  rewrite Hcat in Hsum. cbn in Hsum, Hs, Hf.
  rewrite Hrun. exists batches. eexists. exists w'.
  split; [reflexivity |]. split; [reflexivity |]. cbn.
  split; [repeat split; exact Hlen |].
  split; [exact Hpop |]. split; [lia |]. split; [exact Hs |].
  split; [exact Hf |].
  intros path Hurl. split.
  - destruct (processBatches_posts env cfg path Hurl batches acc0 w0)
      as (acc2 & w2 & Hrun2 & Hposts).
    rewrite Hrun in Hrun2. injection Hrun2 as _ <-. exact Hposts.
  - intros Hall.
    destruct (processBatches_all_accepted env cfg path Hurl batches Hall
                acc0 w0) as (acc2 & w2 & Hrun2 & Hs2 & Hf2 & Hlen2 & Hord).
    rewrite Hrun in Hrun2. injection Hrun2 as <- <-.
    rewrite Hcat in Hs2, Hlen2. cbn in Hs2, Hf2, Hlen2, Hord.
    split; [lia |]. split; [exact Hf2 |]. split; [lia |].
    rewrite Hord, concat_app, Hcat. reflexivity.
Qed.

Lemma env_ok_AllAccepted : AllAccepted env_ok.
Proof.
  intros k req. exists (map reading_of (sn_list req)).
  split; [reflexivity | apply length_map].
Qed.

Lemma fetchDeviceData_accounting_witness :
  exists s w',
    fetchDeviceData env_ok CONFIG 25 boot = Some (Return s, w')
    /\ sum_successCount s = 25
    /\ sum_failureCount s = 0
    /\ Z.of_nat (List.length (data s)) = 25.
Proof.
  destruct (fetchDeviceData_accounting env_ok CONFIG 25 boot)
    as (_ & batches & s & w' & _ & Heq & _ & Htotal & _ & _ & _ & Hparsed);
    [cbn; lia |].
  destruct (Hparsed "/device/real/query" eq_refl) as [_ Hall].
  destruct (Hall env_ok_AllAccepted) as (Hs & Hf & Hd & _).
  rewrite Htotal in Hs, Hd.
  exists s, w'. split; [exact Heq |]. split; [exact Hs |].
  split; [exact Hf | exact Hd].
Defined.

(** The end-to-end scenarios, evaluated: 25 devices all accepted; 10
    devices with two 429 rejections before the accepted call; 10 devices
    with an endpoint that always answers 401; the full population; and 25
    devices of which the second batch alone is rejected. *)
Example scenario_25_accepted :
  tally (fetchDeviceData env_ok CONFIG 25 boot) = Some (25, 0, 25%nat, 3%nat).
Proof. vm_compute. reflexivity. Qed.

Example scenario_10_two_429 :
  tally (fetchDeviceData (env_failing_first 2 429) CONFIG 10 boot)
  = Some (10, 0, 10%nat, 3%nat).
Proof. vm_compute. reflexivity. Qed.

Example scenario_10_always_401 :
  tally (fetchDeviceData (env_always 401) CONFIG 10 boot)
  = Some (0, 10, 0%nat, 1%nat).
Proof. vm_compute. reflexivity. Qed.

Example scenario_500_accepted :
  tally (fetchAllDeviceData env_ok CONFIG boot)
  = Some (500, 0, 500%nat, 50%nat).
Proof. vm_compute. reflexivity. Qed.

Example scenario_25_second_batch_rejected :
  tally (fetchDeviceData
           (endpoint (fun i req => if (i =? 1)%nat
                                   then Rejected (http_error 401)
                                   else accept req))
           CONFIG 25 boot)
  = Some (15, 10, 15%nat, 3%nat).
Proof. vm_compute. reflexivity. Qed.

(* ================================================================== *)
(** ** Retries and the rate limit                                       *)
(* ================================================================== *)

(** [makeRequest] retries by calling itself, inside the operation that
    [execute] admitted once: no admission is recorded for a retry. *)
Lemma makeRequest_keeps_queue (env : Env) (cfg : Config)
    (snList : list string) (retryCount : Z) (w : World) :
  exists r w',
    makeRequest env cfg snList retryCount w = Some (r, w')
    /\ queue w' = queue w.
Proof.
  destruct (makeRequest_total env cfg snList retryCount w)
    as (r & w' & Heq & _ & Hqueue & _).
  now exists r, w'.
Qed.

(** C5, evaluated on a run where it fails.  Twenty devices, shipped
    configuration, the first call rejected with 429 and every later call
    accepted, each answer taking 5 ms.  The retry of the first batch is
    issued 2005 ms after the first call without passing through the queue,
    and the second batch is admitted at once 5 ms after that retry: two
    network calls start 5 ms apart, under a rate limit of 1000 ms. *)
Theorem retry_not_rate_limited :
  let run := fetchDeviceData (env_failing_first 1 429) CONFIG 20 boot in
  postTimes (final_trace run)
    = [1700000000000; 1700000002005; 1700000002010]
  /\ map shape (final_trace run) = [SPost; SSleep 2000; SPost; SPost]
  /\ tally run = Some (20, 0, 20%nat, 3%nat)
  /\ ~ spaced (RATE_LIMIT_MS CONFIG) (postTimes (final_trace run)).
Proof.
  vm_compute. repeat (split; [reflexivity |]).
  intros (_ & Hgap & _). now apply Hgap.
Qed.

(* ================================================================== *)
(** ** Serial numbers                                                   *)
(* ================================================================== *)

Lemma toString_digits (z : Z) :
  0 <= z ->
  exists u, toString z = NilEmpty.string_of_uint u /\ Z.of_uint u = z.
Proof.
  intros Hz. destruct z as [| p | p]; [| | lia].
  - exists (Decimal.D0 Decimal.Nil). split; reflexivity.
  - exists (Pos.to_uint p). split.
    + unfold toString. cbn.
      pose proof (DecimalPos.Unsigned.to_uint_nonnil p) as Hnn.
      destruct (Pos.to_uint p); [contradiction | reflexivity ..].
    + exact (DecimalZ.of_to (Z.pos p)).
Qed.

Lemma uint_of_padded (k : nat) (s : string) (u : Decimal.uint) :
  NilEmpty.uint_of_string s = Some u ->
  exists u',
    NilEmpty.uint_of_string
      (string_of_list_ascii (repeat "0"%char k) ++ s)%string = Some u'
    /\ Z.of_uint u' = Z.of_uint u.
Proof.
  intros Hs. induction k as [| k (u' & Hk & Hval)].
  - now exists u.
  - exists (Decimal.D0 u'). cbn [repeat string_of_list_ascii append].
    cbn [NilEmpty.uint_of_string]. rewrite Hk. split; [reflexivity |].
    exact Hval.
Qed.

(** The serial number written for index [i]. *)
Lemma serialIndex_of_serial (i : nat) :
  serialIndex ("SN-" ++ padStart (toString (Z.of_nat i)) 3 "0"%char)%string
  = Some (Z.of_nat i).
Proof.
  destruct (toString_digits (Z.of_nat i)) as (u & Hstr & Hval); [lia |].
  unfold padStart.
  destruct (uint_of_padded (3 - String.length (toString (Z.of_nat i)))
              (toString (Z.of_nat i)) u) as (u' & Hparse & Hval').
  { rewrite Hstr. apply NilEmpty.usu. }
  cbn [append serialIndex]. rewrite Hparse. cbn [option_map].
  now rewrite Hval', Hval.
Qed.

Lemma nth_generateSerialNumbers (count : Z) (i : nat) :
  (i < Z.to_nat count)%nat ->
  nth i (generateSerialNumbers count) ""
  = ("SN-" ++ padStart (toString (Z.of_nat i)) 3 "0"%char)%string.
Proof.
  intros Hi. unfold generateSerialNumbers.
  rewrite (nth_indep _ "" ("SN-" ++ padStart (toString (Z.of_nat 0)) 3 "0"%char)%string)
    by now rewrite length_map, length_seq.
  rewrite (map_nth (fun i => ("SN-" ++ padStart (toString (Z.of_nat i)) 3 "0"%char)%string)).
  now rewrite seq_nth.
Qed.

(** X1. [generateSerialNumbers count] yields [max 0 count] identifiers;
    the index can be read back from each of them, so no two of them are
    equal. *)
Theorem generateSerialNumbers_distinct (count : Z) :
  Z.of_nat (List.length (generateSerialNumbers count)) = Z.max 0 count
  /\ map serialIndex (generateSerialNumbers count)
     = map (fun i => Some (Z.of_nat i)) (seq 0 (Z.to_nat count))
  /\ NoDup (generateSerialNumbers count).
Proof.
  split; [apply generateSerialNumbers_length |].
  assert (Hdec : map serialIndex (generateSerialNumbers count)
                 = map (fun i => Some (Z.of_nat i)) (seq 0 (Z.to_nat count))).
  { unfold generateSerialNumbers. rewrite map_map.
    apply map_ext. intros i. apply serialIndex_of_serial. }
  split; [exact Hdec |].
  apply (NoDup_of_map serialIndex). rewrite Hdec.
  apply NoDup_map_injective; [| apply seq_NoDup].
  intros a b [= Hab]. lia.
Qed.

(** X2. Up to a thousand devices every identifier has exactly six
    characters; [padStart] never truncates, so the identifier of index
    1000 is [SN-1000], seven characters long. *)
Theorem generateSerialNumbers_width (count : Z) :
  (count <= 1000 ->
     Forall (fun s => String.length s = 6%nat) (generateSerialNumbers count))
  /\ (1000 < count ->
        nth 1000 (generateSerialNumbers count) "" = "SN-1000").
Proof.
  split.
  - intros Hcount. apply Forall_forall. intros s Hin.
    unfold generateSerialNumbers in Hin. apply in_map_iff in Hin.
    destruct Hin as (i & <- & Hi). apply in_seq in Hi.
    assert (Htable :
              forallb (fun i => Nat.eqb (String.length
                         ("SN-" ++ padStart (toString (Z.of_nat i)) 3 "0"%char)%string) 6)
                      (seq 0 1000) = true) by (vm_compute; reflexivity).
    rewrite forallb_forall in Htable.
    apply Nat.eqb_eq, Htable, in_seq. lia.
  - intros Hcount. rewrite nth_generateSerialNumbers by lia.
    vm_compute. reflexivity.
Qed.

Lemma generateSerialNumbers_width_witness :
  Forall (fun s => String.length s = 6%nat) (generateSerialNumbers 500)
  /\ nth 1000 (generateSerialNumbers 1001) "" = "SN-1000".
Proof.
  destruct (generateSerialNumbers_width 500) as [Hfixed _].
  destruct (generateSerialNumbers_width 1001) as [_ Hlong].
  split; [apply Hfixed; lia | apply Hlong; lia].
Defined.

(* ================================================================== *)
(** ** More on the signer and the batcher                               *)
(* ================================================================== *)

(** X3. The three inputs of [generateSignature] are concatenated without
    a separator: moving characters across the boundary between the URL
    and the token, or between the token and the timestamp, leaves the
    signature unchanged. *)
Theorem generateSignature_unframed (a b c d : string) :
  generateSignature (a ++ b) c d = generateSignature a (b ++ c) d
  /\ generateSignature a (b ++ c) d = generateSignature a b (c ++ d).
Proof.
  assert (Hassoc : forall x y z : string,
             ((x ++ y) ++ z = x ++ (y ++ z))%string).
  { intros x y z. induction x as [| ch x IH]; cbn; [reflexivity |].
    now rewrite IH. }
  unfold generateSignature. cbv zeta. now rewrite !Hassoc.
Qed.

(** X4. For a batch size above zero no batch is empty; the result is
    empty exactly for the empty input; an input no longer than the batch
    size comes back as one batch; and when the size divides the length,
    every batch is full. *)
Theorem createBatches_shape (A : Type) (array : list A) (b : Z) :
  0 < b ->
  exists batches,
    createBatches array b = Some batches
    /\ Forall (fun batch => batch <> []) batches
    /\ (batches = [] <-> array = [])
    /\ (array <> [] -> Z.of_nat (List.length array) <= b ->
          batches = [array])
    /\ (Z.of_nat (List.length array) mod b = 0 ->
          Forall (fun batch => Z.of_nat (List.length batch) = b) batches).
Proof.
  intros Hb.
  pose proof (batchCount_bounds array b Hb) as Hc. cbn zeta in Hc.
  exists (map (batchAt array b) (seq 0 (batchCount array b))).
  split; [now apply createBatches_eq |].
  assert (Hlen : forall k, (k < batchCount array b)%nat ->
            Z.of_nat (List.length (batchAt array b k))
            = Z.min b (Z.of_nat (List.length array) - Z.of_nat k * b)).
  { intros k Hk. rewrite batchAt_firstn_skipn by assumption.
    rewrite length_firstn, length_skipn. nia. }
  split; [| split; [| split]].
  - apply Forall_forall. intros batch Hin. apply in_map_iff in Hin.
    destruct Hin as (k & <- & Hk). apply in_seq in Hk.
    intros Hnil. specialize (Hlen k ltac:(lia)). rewrite Hnil in Hlen.
    cbn in Hlen. nia.
  - split.
    + intros Hnil. apply (f_equal (@List.length _)) in Hnil.
      rewrite length_map, length_seq in Hnil. cbn in Hnil.
      destruct array; [reflexivity | cbn in Hc; nia].
    + intros ->.
      replace (batchCount (@nil A) b) with 0%nat by (cbn in Hc; nia).
      reflexivity.
  - intros Hne Hfit.
    assert (Hone : batchCount array b = 1%nat).
    { assert (Hpos : 0 < Z.of_nat (List.length array))
        by (destruct array; [contradiction | cbn [List.length]; lia]).
      destruct Hc as [[Hlo Hhi] | [Hzero _]]; [| lia].
      assert (0 < Z.of_nat (batchCount array b)) by nia.
      assert (Z.of_nat (batchCount array b) - 1 < 1) by nia.
      lia. }
    rewrite Hone. cbn [seq map]. f_equal.
    rewrite batchAt_firstn_skipn by assumption. cbn [Nat.mul skipn].
    apply firstn_all2. lia.
  - intros Hdiv. apply Forall_forall. intros batch Hin.
    apply in_map_iff in Hin. destruct Hin as (k & <- & Hk).
    apply in_seq in Hk. rewrite Hlen by lia.
    apply Z.mod_divide in Hdiv; [| lia]. destruct Hdiv as [q Hq].
    assert (Hcq : Z.of_nat (batchCount array b) <= q) by nia.
    assert (Hfull : (Z.of_nat k + 1) * b <= q * b)
      by (apply Z.mul_le_mono_nonneg_r; lia).
    lia.
Qed.

Lemma createBatches_shape_witness :
  exists batches,
    createBatches (generateSerialNumbers 7) 10 = Some batches
    /\ batches = [generateSerialNumbers 7].
Proof.
  destruct (createBatches_shape string (generateSerialNumbers 7) 10)
    as (batches & Heq & _ & _ & Hone & _); [lia |].
  exists batches. split; [exact Heq |].
  apply Hone; [vm_compute; discriminate |].
  rewrite generateSerialNumbers_length. lia.
Defined.

(** X5. Batching the generated population puts every identifier in
    exactly one batch: the batches together hold each identifier once. *)
Theorem createBatches_serials_once (count b : Z) :
  0 < b ->
  exists batches,
    createBatches (generateSerialNumbers count) b = Some batches
    /\ NoDup (List.concat batches)
    /\ forall s, In s (generateSerialNumbers count)
                 <-> exists batch, In batch batches /\ In s batch.
Proof.
  intros Hb. set (sns := generateSerialNumbers count).
  assert (Hcat : List.concat (map (batchAt sns b) (seq 0 (batchCount sns b)))
                 = sns).
  { rewrite concat_batchAt by assumption. apply firstn_all2.
    pose proof (batchCount_bounds sns b Hb) as Hc. cbn zeta in Hc. nia. }
  exists (map (batchAt sns b) (seq 0 (batchCount sns b))).
  split; [now apply createBatches_eq |]. split.
  - rewrite Hcat.
    apply (NoDup_of_map serialIndex). unfold sns, generateSerialNumbers.
    rewrite map_map.
    rewrite (map_ext _ (fun i => Some (Z.of_nat i)))
      by (intros i; apply serialIndex_of_serial).
    apply NoDup_map_injective; [| apply seq_NoDup].
    intros x y [= Hxy]. lia.
  - intros s. rewrite <- in_concat, Hcat. reflexivity.
Qed.

Lemma createBatches_serials_once_witness :
  exists batches,
    createBatches (generateSerialNumbers 25) 10 = Some batches
    /\ NoDup (List.concat batches).
Proof.
  destruct (createBatches_serials_once 25 10)
    as (batches & Heq & Hnd & _); [lia |].
  exists batches. split; [exact Heq | exact Hnd].
Defined.


(* ================================================================== *)
(** ** More on the request executor                                     *)
(* ================================================================== *)

Section ExecutorRuns.

Variable env : Env.
Variable cfg : Config.
Variable path : string.
Hypothesis Hurl : pathnameOf env (API_URL cfg) = Some path.

(** [k] retryable rejections, then a rejection that ends the run: either
    one that is not retried, or the one that finds the budget spent. *)
Lemma makeRequest_fuel_fails (snList : list string) (e : AxiosError) :
  forall (k fuel : nat) (retryCount : Z) (w : World),
    retryCount + Z.of_nat k <= MAX_RETRIES cfg -> (k < fuel)%nat ->
    (forall j req, (posts w <= j < posts w + k)%nat ->
       exists e', respond env j req = Rejected e'
                  /\ isRetryable (ExnAxios e') = true) ->
    (forall req, sn_list req = snList ->
       respond env (posts w + k) req = Rejected e) ->
    isRetryable (ExnAxios e) = false
    \/ retryCount + Z.of_nat k = MAX_RETRIES cfg ->
    exists w',
      makeRequest_fuel env cfg fuel snList retryCount w
        = Some (Throw (if isRetryable (ExnAxios e)
                       then exhausted cfg e else ExnAxios e), w')
      /\ posts w' = (posts w + k + 1)%nat
      /\ naps w' = (naps w + k)%nat.
Proof.
  induction k as [| k IH]; intros fuel retryCount w Hk Hfuel Hrej Hlast Hend;
    (destruct fuel as [| fuel]; [lia |]);
    rewrite (makeRequest_fuel_step env cfg path Hurl); cbv zeta.
  - specialize (Hlast (signedRequest cfg path snList (clock w)) eq_refl).
    rewrite Nat.add_0_r in Hlast. rewrite Hlast.
    destruct (isRetryable (ExnAxios e)).
    + destruct Hend as [Hno | Hmax]; [discriminate |].
      destruct (Z.ltb_spec retryCount (MAX_RETRIES cfg)); [lia |].
      eexists. split; [reflexivity |]. cbn. lia.
    + eexists. split; [reflexivity |]. cbn. lia.
  - destruct (Hrej (posts w) (signedRequest cfg path snList (clock w)))
      as (e' & -> & ->); [lia |].
    destruct (Z.ltb_spec retryCount (MAX_RETRIES cfg)); [| lia].
    set (w2 := afterSleep env (RETRY_DELAY_MS cfg)
                 (afterPost env w (signedRequest cfg path snList (clock w)))).
    destruct (IH fuel (retryCount + 1) w2) as (w' & Heq & Hposts & Hnaps);
      [lia | lia | | | |].
    + intros j req Hj. apply Hrej. cbn in Hj. lia.
    + intros req Hreq.
      replace (posts w2 + k)%nat with (posts w + S k)%nat by (cbn; lia).
      now apply Hlast.
    + destruct Hend as [Hno | Hmax]; [now left | right; lia].
    + exists w'. split; [exact Heq |]. cbn in Hposts, Hnaps. lia.
Qed.

End ExecutorRuns.

(** X6. With an API URL that parses, whatever the endpoint answers,
    [makeRequest] completes after at least one and at most
    [MAX_RETRIES + 1] network calls, with exactly one timer set to
    [RETRY_DELAY_MS] between consecutive calls and none before the first
    or after the last; it leaves the queue's recorded admission
    untouched. *)
Theorem makeRequest_bounded (env : Env) (cfg : Config) (path : string)
    (snList : list string) (w : World) :
  0 <= MAX_RETRIES cfg ->
  pathnameOf env (API_URL cfg) = Some path ->
  exists r w' evs (n : nat),
    makeRequest env cfg snList 0 w = Some (r, w')
    /\ Z.of_nat n <= MAX_RETRIES cfg
    /\ trace w' = trace w ++ evs
    /\ map shape evs
       = SPost :: List.concat (repeat [SSleep (RETRY_DELAY_MS cfg); SPost] n)
    /\ posts w' = (posts w + n + 1)%nat
    /\ naps w' = (naps w + n)%nat
    /\ queue w' = queue w
    /\ clock w <= clock w'.
Proof.
  intros Hmax Hurl.
  destruct (makeRequest_fuel_run env cfg path Hurl snList
              (Z.to_nat (MAX_RETRIES cfg - 0))
              (S (Z.to_nat (MAX_RETRIES cfg - 0))) 0 w)
    as (r & w' & evs & n & Heq & Hn & Htrace & Hshape & Hposts & Hnaps & _);
    [lia | lia |].
  destruct (makeRequest_total env cfg snList 0 w)
    as (r2 & w2 & Heq2 & Hclock & Hqueue & _).
  unfold makeRequest in Heq2. rewrite Heq in Heq2. injection Heq2 as <- <-.
  exists r, w', evs, n. unfold makeRequest.
  repeat (split; [first [assumption | lia] |]). exact Hclock.
Qed.

Lemma makeRequest_bounded_witness :
  exists r w' (n : nat),
    makeRequest (env_failing_first 9 429) CONFIG ["SN-000"] 0 boot
      = Some (r, w')
    /\ Z.of_nat n <= 3
    /\ posts w' = (n + 1)%nat.
Proof.
  destruct (makeRequest_bounded (env_failing_first 9 429) CONFIG
              "/device/real/query" ["SN-000"] boot)
    as (r & w' & evs & n & Heq & Hn & _ & _ & Hposts & _);
    [cbn; lia | reflexivity |].
  exists r, w', n. split; [exact Heq |]. split; [exact Hn | exact Hposts].
Defined.

(** X7. Every network call [makeRequest] issues, first attempt or retry,
    in any run, carries the batch it was given, the configured URL, the
    clock value at the moment of the call as timestamp, and the signature
    of the path the platform reads off the API URL, the token and that
    timestamp. *)
Theorem makeRequest_requests_signed (env : Env) (cfg : Config)
    (snList : list string) (retryCount : Z) (w : World) :
  exists r w' evs,
    makeRequest env cfg snList retryCount w = Some (r, w')
    /\ trace w' = trace w ++ evs
    /\ Forall (fun p =>
                 req_url (snd p) = API_URL cfg
                 /\ sn_list (snd p) = snList
                 /\ hdr_timestamp (snd p) = toString (fst p)
                 /\ exists path,
                      pathnameOf env (API_URL cfg) = Some path
                      /\ hdr_signature (snd p)
                         = generateSignature path (TOKEN cfg)
                                             (hdr_timestamp (snd p)))
              (postsOf evs).
Proof.
  unfold makeRequest.
  destruct (pathnameOf env (API_URL cfg)) as [path |] eqn:Hurl.
  - destruct (makeRequest_fuel_run env cfg path Hurl snList
                (Z.to_nat (MAX_RETRIES cfg - retryCount))
                (S (Z.to_nat (MAX_RETRIES cfg - retryCount))) retryCount w)
      as (r & w' & evs & n & Heq & _ & Htrace & _ & _ & _ & Hfresh & _);
      [lia | lia |].
    exists r, w', evs. split; [exact Heq |]. split; [exact Htrace |].
    eapply Forall_impl; [| exact Hfresh]. cbn. intros p ->. cbn.
    repeat split. now exists path.
  - rewrite makeRequest_fuel_bad_url by assumption.
    eexists _, w, []. rewrite app_nil_r. repeat split. constructor.
Qed.

(** X8. With an API URL that parses, after [k <= MAX_RETRIES] retryable
    rejections, a rejection that is not retryable ends the run at once: it
    is rethrown unchanged after [k + 1] calls and [k] timers. *)
Theorem makeRequest_stops_on_other_error (env : Env) (cfg : Config)
    (path : string) (snList : list string) (w : World) (k : nat)
    (e : AxiosError) :
  pathnameOf env (API_URL cfg) = Some path ->
  Z.of_nat k <= MAX_RETRIES cfg ->
  (forall j req, (posts w <= j < posts w + k)%nat ->
     exists e', respond env j req = Rejected e'
                /\ isRetryable (ExnAxios e') = true) ->
  (forall req, sn_list req = snList ->
     respond env (posts w + k) req = Rejected e) ->
  isRetryable (ExnAxios e) = false ->
  exists w',
    makeRequest env cfg snList 0 w = Some (Throw (ExnAxios e), w')
    /\ posts w' = (posts w + k + 1)%nat
    /\ naps w' = (naps w + k)%nat.
Proof.
  intros Hurl Hk Hrej Hlast Hno. unfold makeRequest.
  destruct (makeRequest_fuel_fails env cfg path Hurl snList e k
              (S (Z.to_nat (MAX_RETRIES cfg - 0))) 0 w)
    as (w' & Heq & Hposts & Hnaps);
    [lia | lia | exact Hrej | exact Hlast | now left |].
  rewrite Hno in Heq. now exists w'.
Qed.

Lemma makeRequest_stops_on_other_error_witness :
  exists w',
    makeRequest
      (endpoint (fun i _ => if (i <? 2)%nat then Rejected (http_error 429)
                            else Rejected (http_error 401)))
      CONFIG ["SN-000"] 0 boot
    = Some (Throw (ExnAxios (http_error 401)), w')
    /\ posts w' = 3%nat
    /\ naps w' = 2%nat.
Proof.
  apply (makeRequest_stops_on_other_error _ CONFIG "/device/real/query"
           ["SN-000"] boot 2 (http_error 401)).
  - reflexivity.
  - cbn. lia.
  - intros j req Hj. exists (http_error 429). split; [| reflexivity].
    cbn in Hj. cbn. destruct j as [| [| j]]; [reflexivity | reflexivity | lia].
  - intros req _. reflexivity.
  - reflexivity.
Defined.

(** X9. With an API URL that parses, when the retries run out the error
    thrown is a new [Error] whose message is
    ["Failed after <MAX_RETRIES> retries: "] followed by the message of
    the last rejection; status and code of that rejection are not passed
    on, so the thrown error is not itself retryable. *)
Theorem makeRequest_exhausted_error (env : Env) (cfg : Config)
    (path : string) (snList : list string) (w : World) (e : AxiosError) :
  pathnameOf env (API_URL cfg) = Some path ->
  0 <= MAX_RETRIES cfg ->
  (forall j req,
     (posts w <= j < posts w + Z.to_nat (MAX_RETRIES cfg))%nat ->
     exists e', respond env j req = Rejected e'
                /\ isRetryable (ExnAxios e') = true) ->
  (forall req, sn_list req = snList ->
     respond env (posts w + Z.to_nat (MAX_RETRIES cfg)) req = Rejected e) ->
  isRetryable (ExnAxios e) = true ->
  exists w',
    makeRequest env cfg snList 0 w
    = Some (Throw (ExnError ("Failed after " ++ toString (MAX_RETRIES cfg)
                             ++ " retries: " ++ message e)%string), w')
    /\ isRetryable (ExnError ("Failed after " ++ toString (MAX_RETRIES cfg)
                              ++ " retries: " ++ message e)%string) = false.
Proof.
  intros Hurl Hmax Hrej Hlast Hyes. unfold makeRequest.
  destruct (makeRequest_fuel_fails env cfg path Hurl snList e
              (Z.to_nat (MAX_RETRIES cfg))
              (S (Z.to_nat (MAX_RETRIES cfg - 0))) 0 w)
    as (w' & Heq & _);
    [lia | lia | exact Hrej | exact Hlast | right; lia |].
  rewrite Hyes in Heq. exists w'. split; [exact Heq | reflexivity].
Qed.

Lemma makeRequest_exhausted_error_witness :
  exists w',
    makeRequest (env_always 429) CONFIG ["SN-000"] 0 boot
    = Some (Throw (ExnError
                     "Failed after 3 retries: Request failed with status code 429"),
            w').
Proof.
  destruct (makeRequest_exhausted_error (env_always 429) CONFIG
              "/device/real/query" ["SN-000"] boot (http_error 429))
    as (w' & Heq & _).
  - reflexivity.
  - cbn. lia.
  - intros j req _. exists (http_error 429). split; reflexivity.
  - intros req _. reflexivity.
  - reflexivity.
  - exists w'. exact Heq.
Defined.

(* ================================================================== *)
(** ** More on the rate-limited queue                                   *)
(* ================================================================== *)

(** X10. On a queue whose [rateLimitMs] is at most 2147483647, entered no
    earlier than the last recorded admission, [execute] either starts the
    operation at once or first awaits one timer whose delay is positive
    and at most [rateLimitMs]; if that timer fires on time, the new
    admission is recorded exactly [rateLimitMs] after the previous one.
    With a limit of zero or less it never waits. *)
Theorem execute_wait_bounded (env : Env) (A : Type) (fn : M A) (w : World) :
  rateLimitMs (queue w) <= TIMEOUT_MAX ->
  lastRequestTime (queue w) <= clock w ->
  exists w1,
    execute env fn w = fn w1
    /\ ((trace w1 = trace w /\ clock w1 = clock w /\ naps w1 = naps w)
        \/ (exists ms,
              0 < ms <= rateLimitMs (queue w)
              /\ trace w1 = trace w ++ [EvSleep ms]
              /\ naps w1 = S (naps w)
              /\ clock w + ms <= clock w1
              /\ (overshoot env (naps w) = 0%N ->
                    lastRequestTime (queue w1)
                    = lastRequestTime (queue w) + rateLimitMs (queue w))))
    /\ (rateLimitMs (queue w) <= 0 -> trace w1 = trace w).
Proof.
  intros Hrate Hlast. exists (admitted env w). split; [apply execute_eq |].
  unfold admitted, gate.
  destruct (Z.ltb_spec (clock w - lastRequestTime (queue w))
                       (rateLimitMs (queue w))) as [Hearly | Hlate].
  - split; [| intros; lia]. right.
    exists (rateLimitMs (queue w) - (clock w - lastRequestTime (queue w))).
    cbn. rewrite timerDelay_in_range by lia. repeat split; lia.
  - split; [left; repeat split | reflexivity].
Qed.

Lemma execute_wait_bounded_witness :
  let w := running 1000 1699999999600 1700000000000 in
  exists w1,
    execute env_ok (lasting 0 (Return tt)) w = lasting 0 (Return tt) w1
    /\ ((trace w1 = trace w /\ clock w1 = clock w /\ naps w1 = naps w)
        \/ (exists ms,
              0 < ms <= 1000
              /\ trace w1 = trace w ++ [EvSleep ms]
              /\ naps w1 = S (naps w)
              /\ clock w + ms <= clock w1
              /\ (overshoot env_ok (naps w) = 0%N ->
                    lastRequestTime (queue w1) = 1699999999600 + 1000)))
    /\ (1000 <= 0 -> trace w1 = trace w).
Proof.
  intros w.
  apply (execute_wait_bounded env_ok unit (lasting 0 (Return tt)) w).
  - cbn. unfold TIMEOUT_MAX. lia.
  - cbn. lia.
Defined.

(* ================================================================== *)
(** ** More on the driver                                               *)
(* ================================================================== *)

Section DriverRuns.

Variable env : Env.
Variable cfg : Config.

(** The driver once the batches are made: a new queue, the loop, the
    result object. *)
Lemma fetchDeviceData_eq (count : Z) (w : World) :
  0 < BATCH_SIZE cfg ->
  let sns := generateSerialNumbers count in
  fetchDeviceData env cfg count w
  = match processBatches env cfg
            {| allResults := []; successCount := 0; failureCount := 0 |}
            (map (batchAt sns (BATCH_SIZE cfg))
                 (seq 0 (batchCount sns (BATCH_SIZE cfg))))
            (withNewQueue (RATE_LIMIT_MS cfg) w) with
    | None => None
    | Some (Throw e, w') => Some (Throw e, w')
    | Some (Return acc, w') =>
        Some (Return (summaryOf (Z.of_nat (List.length sns)) acc
                                (clock w) (clock w')), w')
    end.
Proof.
  intros Hsize sns. unfold fetchDeviceData. fold sns.
  rewrite createBatches_eq by assumption.
  unfold bind, newQueue, Date_now, ret. fold (withNewQueue (RATE_LIMIT_MS cfg) w).
  destruct (processBatches env cfg _ _ _) as [[[acc | e] w'] |]; reflexivity.
Qed.

Lemma gate_trace (w : World) :
  exists pre,
    trace (gate env w) = trace w ++ pre
    /\ (rateLimitMs (queue w) <= clock w - lastRequestTime (queue w) ->
        gate env w = w).
Proof.
  unfold gate.
  destruct (Z.ltb_spec (clock w - lastRequestTime (queue w))
                       (rateLimitMs (queue w))).
  - eexists. split; [reflexivity | lia].
  - exists []. split; [now rewrite app_nil_r | reflexivity].
Qed.

Lemma makeRequest_trace_grows (snList : list string) (w : World) :
  exists r w' evs,
    makeRequest env cfg snList 0 w = Some (r, w')
    /\ trace w' = trace w ++ evs.
Proof.
  unfold makeRequest.
  destruct (pathnameOf env (API_URL cfg)) as [path |] eqn:Hurl.
  - destruct (makeRequest_fuel_run env cfg path Hurl snList
                (Z.to_nat (MAX_RETRIES cfg - 0))
                (S (Z.to_nat (MAX_RETRIES cfg - 0))) 0 w)
      as (r & w' & evs & n & Heq & _ & Htrace & _); [lia | lia |].
    now exists r, w', evs.
  - rewrite makeRequest_fuel_bad_url by assumption.
    eexists _, w, []. now rewrite app_nil_r.
Qed.

(** One iteration, seen from the world: the admission is recorded, then
    the request runs. *)
Lemma processBatch_world (acc : Acc) (batch : list string) (w : World) :
  exists acc' w1 evs,
    processBatch env cfg acc batch w = Some (Return acc', w1)
    /\ queue w1 = {| rateLimitMs := rateLimitMs (queue w);
                     lastRequestTime := clock (gate env w) |}
    /\ clock (gate env w) <= clock w1
    /\ trace w1 = trace (gate env w) ++ evs
    /\ forall path,
         pathnameOf env (API_URL cfg) = Some path ->
         hd_error evs
         = Some (EvPost (clock (gate env w))
                        (signedRequest cfg path batch (clock (gate env w)))).
Proof.
  rewrite processBatch_eq.
  destruct (makeRequest_total env cfg batch 0 (admitted env w))
    as (r & w1 & Heq & Hclock & Hqueue & _).
  destruct (makeRequest_trace_grows batch (admitted env w))
    as (r2 & w2 & evs & Heq2 & Htrace).
  rewrite Heq in Heq2. injection Heq2 as <- <-.
  rewrite admitted_queue in Hqueue.
  assert (Hhd : forall path,
            pathnameOf env (API_URL cfg) = Some path ->
            hd_error evs
            = Some (EvPost (clock (gate env w))
                           (signedRequest cfg path batch
                                          (clock (gate env w))))).
  { intros path Hurl.
    destruct (makeRequest_fuel_run env cfg path Hurl batch
                (Z.to_nat (MAX_RETRIES cfg - 0))
                (S (Z.to_nat (MAX_RETRIES cfg - 0))) 0 (admitted env w))
      as (r3 & w3 & evs3 & n & Heq3 & _ & Htrace3 & _ & _ & _ & _ & Hhd & _);
      [lia | lia |].
    unfold makeRequest in Heq. rewrite Heq in Heq3. injection Heq3 as <- <-.
    rewrite Htrace in Htrace3. apply app_inv_head in Htrace3.
    subst evs3. exact Hhd. }
  rewrite Heq.
  assert (Hgoal : forall acc',
    exists acc'' w1' evs',
      Some (Return acc' : Res Acc, w1) = Some (Return acc'', w1')
      /\ queue w1' = {| rateLimitMs := rateLimitMs (queue w);
                        lastRequestTime := clock (gate env w) |}
      /\ clock (gate env w) <= clock w1'
      /\ trace w1' = trace (gate env w) ++ evs'
      /\ forall path,
           pathnameOf env (API_URL cfg) = Some path ->
           hd_error evs'
           = Some (EvPost (clock (gate env w))
                          (signedRequest cfg path batch
                                         (clock (gate env w))))).
  { intros acc'. exists acc', w1, evs. split; [reflexivity |].
    split; [exact Hqueue |]. split; [exact Hclock |].
    split; [exact Htrace | exact Hhd]. }
  destruct r as [[rs |] | e]; apply Hgoal.
Qed.

(** The loop, seen from the world: it completes, the clock only advances,
    the trace only grows, and, within the range of the timers, the
    admission recorded last is at least [len - 1] intervals after the
    first. *)
Lemma processBatches_world (batches : list (list string)) :
  forall (acc : Acc) (w : World),
    exists acc' w' evs,
      processBatches env cfg acc batches w = Some (Return acc', w')
      /\ rateLimitMs (queue w') = rateLimitMs (queue w)
      /\ clock w <= clock w'
      /\ trace w' = trace w ++ evs
      /\ (rateLimitMs (queue w) <= TIMEOUT_MAX ->
          lastRequestTime (queue w) <= clock w ->
          batches <> [] ->
          Z.max (clock w) (lastRequestTime (queue w) + rateLimitMs (queue w))
            + Z.of_nat (List.length batches - 1) * rateLimitMs (queue w)
          <= lastRequestTime (queue w')
          /\ lastRequestTime (queue w') <= clock w').
Proof.
  induction batches as [| batch rest IH]; intros acc w.
  - exists acc, w, []. cbn. rewrite app_nil_r.
    repeat split; try lia; contradiction.
  - cbn [processBatches]. unfold bind.
    destruct (processBatch_world acc batch w)
      as (acc1 & w1 & evs1 & -> & Hq1 & Hc1 & Ht1 & _).
    destruct (gate_trace w) as (pre & Hpre & _).
    pose proof (gate_clock env w) as Hg1.
    destruct (IH acc1 w1)
      as (acc' & w' & evs & Hrun & Hrate & Hclock & Htrace & Hlast).
    rewrite Hrun. rewrite Hq1 in Hrate, Hlast. cbn in Hrate, Hlast.
    exists acc', w', (pre ++ evs1 ++ evs).
    split; [reflexivity |]. split; [exact Hrate |]. split; [lia |].
    split.
    { rewrite Htrace, Ht1, Hpre, <- !app_assoc. reflexivity. }
    intros Hfit Hpast _.
    pose proof (gate_clock_gap env w Hfit Hpast) as Hg2.
    destruct rest as [| batch2 rest].
    + cbn in Hrun. unfold ret in Hrun. injection Hrun as <- <-.
      rewrite Hq1. cbn. lia.
    + destruct Hlast as [Hlo Hhi]; [exact Hfit | exact Hc1 | discriminate |].
      split; [| exact Hhi].
      replace (Z.of_nat (List.length (batch :: batch2 :: rest) - 1))
        with (Z.of_nat (List.length (batch2 :: rest) - 1) + 1)
        by (cbn [List.length]; lia).
      lia.
Qed.

End DriverRuns.

(** X11. With an API URL that parses, the first network call of a run
    goes out at once, without any preceding timer, whenever the clock
    reads at least [RATE_LIMIT_MS]: the new queue counts from time 0.  It
    carries the first [BATCH_SIZE] identifiers. *)
Theorem fetchDeviceData_first_call (env : Env) (cfg : Config) (path : string)
    (count : Z) (w : World) :
  pathnameOf env (API_URL cfg) = Some path ->
  0 < BATCH_SIZE cfg -> 0 < count -> RATE_LIMIT_MS cfg <= clock w ->
  exists s w' evs,
    fetchDeviceData env cfg count w = Some (Return s, w')
    /\ trace w'
       = trace w
         ++ EvPost (clock w)
                   (signedRequest cfg path
                      (firstn (Z.to_nat (BATCH_SIZE cfg))
                              (generateSerialNumbers count))
                      (clock w)) :: evs.
Proof.
  intros Hurl Hsize Hcount Hclock.
  rewrite fetchDeviceData_eq by assumption. cbv zeta.
  set (sns := generateSerialNumbers count).
  assert (Hc : (0 < batchCount sns (BATCH_SIZE cfg))%nat).
  { pose proof (batchCount_bounds sns (BATCH_SIZE cfg) Hsize) as Hb.
    pose proof (generateSerialNumbers_length count) as Hlen. fold sns in Hlen.
    cbn zeta in Hb. nia. }
  destruct (batchCount sns (BATCH_SIZE cfg)) as [| c]; [lia |].
  cbn [seq map processBatches]. unfold bind.
  set (w0 := withNewQueue (RATE_LIMIT_MS cfg) w).
  destruct (processBatch_world env cfg
              {| allResults := []; successCount := 0; failureCount := 0 |}
              (batchAt sns (BATCH_SIZE cfg) 0) w0)
    as (acc1 & w1 & evs1 & -> & _ & _ & Ht1 & Hhd).
  specialize (Hhd path Hurl).
  destruct (gate_trace env w0) as (_ & _ & Hgate).
  rewrite Hgate in Ht1, Hhd by (cbn; lia). cbn in Ht1, Hhd.
  destruct evs1 as [| ev evs1]; [discriminate |]. injection Hhd as ->.
  destruct (processBatches_world env cfg
              (map (batchAt sns (BATCH_SIZE cfg)) (seq 1 c)) acc1 w1)
    as (acc' & w' & evs & -> & _ & _ & Htrace & _).
  eexists. exists w', (evs1 ++ evs). split; [reflexivity |].
  rewrite Htrace, Ht1, <- app_assoc. cbn.
  rewrite batchAt_firstn_skipn by assumption. reflexivity.
Qed.

Lemma fetchDeviceData_first_call_witness :
  exists s w' evs,
    fetchDeviceData (env_always 401) CONFIG 25 boot = Some (Return s, w')
    /\ trace w'
       = EvPost 1700000000000
                (signedRequest CONFIG "/device/real/query"
                   (firstn 10 (generateSerialNumbers 25)) 1700000000000)
         :: evs.
Proof.
  apply (fetchDeviceData_first_call (env_always 401) CONFIG
           "/device/real/query" 25 boot);
    [reflexivity | cbn; lia ..].
Defined.

(** X12. With [RATE_LIMIT_MS] between 0 and 2147483647 and a clock that
    does not read before 0, whatever the endpoint answers, a run over [k]
    batches lasts at least [(k - 1) * RATE_LIMIT_MS] milliseconds, and the
    reported duration is never negative. *)
Theorem fetchDeviceData_duration (env : Env) (cfg : Config) (count : Z)
    (w : World) :
  0 < BATCH_SIZE cfg ->
  0 <= RATE_LIMIT_MS cfg <= TIMEOUT_MAX ->
  0 <= clock w ->
  exists s w',
    fetchDeviceData env cfg count w = Some (Return s, w')
    /\ durationMs s = clock w' - clock w
    /\ 0 <= durationMs s
    /\ Z.of_nat (batchCount (generateSerialNumbers count) (BATCH_SIZE cfg) - 1)
         * RATE_LIMIT_MS cfg
       <= durationMs s.
Proof.
  intros Hsize Hrate Hepoch.
  rewrite fetchDeviceData_eq by assumption. cbv zeta.
  set (sns := generateSerialNumbers count).
  set (batches := map (batchAt sns (BATCH_SIZE cfg))
                      (seq 0 (batchCount sns (BATCH_SIZE cfg)))).
  assert (Hlen : List.length batches = batchCount sns (BATCH_SIZE cfg))
    by (unfold batches; now rewrite length_map, length_seq).
  destruct (processBatches_world env cfg batches
              {| allResults := []; successCount := 0; failureCount := 0 |}
              (withNewQueue (RATE_LIMIT_MS cfg) w))
    as (acc' & w' & evs & -> & _ & Hclock & _ & Hlast).
  eexists. exists w'. split; [reflexivity |]. cbn in Hclock, Hlast |- *.
  split; [reflexivity |]. split; [lia |].
  rewrite <- Hlen.
  destruct batches as [| b0 rest]; [cbn; lia |].
  destruct Hlast as [Hlo Hhi]; [lia | lia | discriminate |]. lia.
Qed.

Lemma fetchDeviceData_duration_witness :
  exists s w',
    fetchDeviceData (env_always 401) CONFIG 25 boot = Some (Return s, w')
    /\ 2 * 1000 <= durationMs s.
Proof.
  destruct (fetchDeviceData_duration (env_always 401) CONFIG 25 boot)
    as (s & w' & Heq & _ & _ & Hlong);
    [cbn; lia | cbn; unfold TIMEOUT_MAX; lia | cbn; lia |].
  exists s, w'. split; [exact Heq | exact Hlong].
Defined.

Section DriverOutcomes.

Variable env : Env.
Variable cfg : Config.

(** What [makeRequest] returns is what some call was answered with. *)
Lemma makeRequest_fuel_returns (snList : list string) :
  forall (fuel : nat) (retryCount : Z) (w w' : World)
         (d : option (list DeviceReading)),
    makeRequest_fuel env cfg fuel snList retryCount w = Some (Return d, w') ->
    exists k req, sn_list req = snList /\ respond env k req = Resolved d.
Proof.
  destruct (pathnameOf env (API_URL cfg)) as [path |] eqn:Hurl.
  - induction fuel as [| fuel IH]; intros retryCount w w' d Hrun;
      [discriminate |].
    rewrite (makeRequest_fuel_step env cfg path Hurl) in Hrun.
    cbv zeta in Hrun.
    destruct (respond env (posts w) (signedRequest cfg path snList (clock w)))
      as [d0 | e] eqn:Hresp.
    + injection Hrun as -> _. now eexists _, _; split; [| exact Hresp].
    + destruct (isRetryable (ExnAxios e)); [| discriminate].
      destruct (retryCount <? MAX_RETRIES cfg); [| discriminate].
      now apply IH in Hrun.
  - intros [| fuel] retryCount w w' d Hrun; [discriminate |].
    rewrite makeRequest_fuel_bad_url in Hrun by assumption. discriminate.
Qed.

(** The loop when no request yields readings, and when every request
    does. *)
Lemma processBatches_all_fail (batches : list (list string)) :
  (forall batch w r w1,
     makeRequest env cfg batch 0 w = Some (r, w1) ->
     forall rs, r <> Return (Some rs)) ->
  forall (acc : Acc) (w : World),
    exists acc' w',
      processBatches env cfg acc batches w = Some (Return acc', w')
      /\ allResults acc' = allResults acc
      /\ successCount acc' = successCount acc
      /\ failureCount acc'
         = failureCount acc + Z.of_nat (List.length (List.concat batches)).
Proof.
  intros Hfail. induction batches as [| batch rest IH]; intros acc w.
  - exists acc, w. cbn. repeat split; lia.
  - cbn [processBatches]. unfold bind. rewrite processBatch_eq.
    destruct (makeRequest_total env cfg batch 0 (admitted env w))
      as (r & w1 & Hrun & _). rewrite Hrun.
    pose proof (Hfail _ _ _ _ Hrun) as Hr.
    destruct r as [[rs |] | e]; [now destruct (Hr rs) | |];
      (match goal with
       | |- context [processBatches env cfg ?a rest w1] =>
           destruct (IH a w1) as (acc' & w' & -> & Hall & Hs & Hf)
       end;
       exists acc', w'; cbn in Hall, Hs, Hf;
       cbn [List.concat]; rewrite length_app;
       repeat split; [exact Hall | exact Hs | lia]).
Qed.

Lemma processBatches_all_succeed (batches : list (list string)) :
  (forall batch w, exists rs w1,
     makeRequest env cfg batch 0 w = Some (Return (Some rs), w1)) ->
  forall (acc : Acc) (w : World),
    exists acc' w',
      processBatches env cfg acc batches w = Some (Return acc', w')
      /\ successCount acc'
         = successCount acc + Z.of_nat (List.length (List.concat batches))
      /\ failureCount acc' = failureCount acc.
Proof.
  intros Hok. induction batches as [| batch rest IH]; intros acc w.
  - exists acc, w. cbn. repeat split; lia.
  - cbn [processBatches]. unfold bind. rewrite processBatch_eq.
    destruct (Hok batch (admitted env w)) as (rs & w1 & ->).
    match goal with
    | |- context [processBatches env cfg ?a rest w1] =>
        destruct (IH a w1) as (acc' & w' & -> & Hs & Hf)
    end.
    exists acc', w'. cbn in Hs, Hf.
    cbn [List.concat]. rewrite length_app.
    repeat split; [lia | exact Hf].
Qed.

Lemma batches_cover (count : Z) :
  0 < BATCH_SIZE cfg ->
  let sns := generateSerialNumbers count in
  let batches := map (batchAt sns (BATCH_SIZE cfg))
                     (seq 0 (batchCount sns (BATCH_SIZE cfg))) in
  Z.of_nat (List.length (List.concat batches)) = Z.max 0 count
  /\ List.length batches = batchCount sns (BATCH_SIZE cfg).
Proof.
  intros Hsize sns batches. unfold batches.
  rewrite concat_batchAt, length_map, length_seq by assumption.
  split; [| reflexivity].
  rewrite firstn_all2; [apply generateSerialNumbers_length |].
  pose proof (batchCount_bounds sns (BATCH_SIZE cfg) Hsize) as Hc.
  cbn zeta in Hc. fold sns. nia.
Qed.

(** A run on a platform that does not parse the API URL sends nothing. *)
Lemma processBatches_bad_url (batches : list (list string)) :
  pathnameOf env (API_URL cfg) = None ->
  forall (acc : Acc) (w : World),
    exists acc' w',
      processBatches env cfg acc batches w = Some (Return acc', w')
      /\ posts w' = posts w
      /\ postsOf (trace w') = postsOf (trace w).
Proof.
  intros Hurl. induction batches as [| batch rest IH]; intros acc w.
  - now exists acc, w.
  - cbn [processBatches]. unfold bind. rewrite processBatch_eq.
    unfold makeRequest. rewrite makeRequest_fuel_bad_url by assumption.
    match goal with
    | |- context [processBatches env cfg ?a rest ?v] =>
        destruct (IH a v) as (acc' & w' & -> & Hp & Ht)
    end.
    exists acc', w'. split; [reflexivity |].
    rewrite Hp, Ht, admitted_posts. split; [reflexivity |].
    apply (gate_posts_trace env).
Qed.

Section Parsed.

Variable path : string.
Hypothesis Hurl : pathnameOf env (API_URL cfg) = Some path.

(** Without retryable rejections a request is a single call. *)
Lemma makeRequest_single (snList : list string) (w : World) :
  NoRetryable env ->
  exists r,
    makeRequest env cfg snList 0 w
    = Some (r, afterPost env w (signedRequest cfg path snList (clock w))).
Proof.
  intros Hno. unfold makeRequest.
  rewrite (makeRequest_fuel_step env cfg path Hurl). cbv zeta.
  destruct (respond env (posts w) (signedRequest cfg path snList (clock w)))
    as [d | e] eqn:Hresp; [now eexists |].
  rewrite (Hno _ _ _ Hresp). now eexists.
Qed.

Lemma processBatches_no_retry (batches : list (list string)) :
  NoRetryable env ->
  forall (acc : Acc) (w : World),
    exists acc' w' ts,
      processBatches env cfg acc batches w = Some (Return acc', w')
      /\ rateLimitMs (queue w') = rateLimitMs (queue w)
      /\ postTimes (trace w') = postTimes (trace w) ++ ts
      /\ List.length ts = List.length batches
      /\ posts w' = (posts w + List.length batches)%nat
      /\ (rateLimitMs (queue w) <= TIMEOUT_MAX ->
          lastRequestTime (queue w) <= clock w ->
          spaced (rateLimitMs (queue w)) (lastRequestTime (queue w) :: ts)).
Proof.
  intros Hno. induction batches as [| batch rest IH]; intros acc w.
  - exists acc, w, []. cbn. rewrite app_nil_r. repeat split; lia.
  - cbn [processBatches]. unfold bind. rewrite processBatch_eq.
    destruct (makeRequest_single batch (admitted env w) Hno) as (r & ->).
    set (w1 := afterPost env (admitted env w)
                 (signedRequest cfg path batch (clock (admitted env w)))).
    assert (Hq1 : queue w1 = {| rateLimitMs := rateLimitMs (queue w);
                                lastRequestTime := clock (gate env w) |})
      by (change (queue w1) with (queue (admitted env w));
          apply admitted_queue).
    assert (Hc1 : clock (gate env w) <= clock w1) by (unfold w1; cbn; lia).
    assert (Hpt1 : postTimes (trace w1)
                   = postTimes (trace w) ++ [clock (gate env w)]).
    { unfold w1, postTimes. cbn. rewrite postsOf_app, map_app.
      now rewrite gate_posts_trace. }
    assert (Hp1 : posts w1 = S (posts w))
      by (unfold w1; cbn; now rewrite <- (admitted_posts env w)).
    destruct r as [[rs |] | e];
      (match goal with
       | |- context [processBatches env cfg ?a rest w1] =>
           destruct (IH a w1)
             as (acc' & w' & ts & -> & Hrate & Hpt & Hlen & Hposts & Hsp)
       end;
       rewrite Hq1 in Hrate, Hsp; cbn in Hrate, Hsp;
       exists acc', w', (clock (gate env w) :: ts);
       split; [reflexivity |]; split; [exact Hrate |];
       split; [rewrite Hpt, Hpt1, <- app_assoc; reflexivity |];
       split; [cbn [List.length]; now rewrite Hlen |];
       split; [cbn [List.length]; lia |];
       intros Hfit Hpast;
       split; [now apply gate_clock_gap | now apply Hsp]).
Qed.

Lemma processBatches_all_retryable (batches : list (list string)) :
  0 <= MAX_RETRIES cfg -> AllRetryable env ->
  forall (acc : Acc) (w : World),
    exists acc' w',
      processBatches env cfg acc batches w = Some (Return acc', w')
      /\ posts w'
         = (posts w
            + List.length batches * (Z.to_nat (MAX_RETRIES cfg) + 1))%nat.
Proof.
  intros Hmax Hall. induction batches as [| batch rest IH]; intros acc w.
  - exists acc, w. cbn. split; [reflexivity | lia].
  - cbn [processBatches]. unfold bind. rewrite processBatch_eq.
    unfold makeRequest.
    destruct (makeRequest_fuel_exhausts env cfg path Hurl batch
                (Z.to_nat (MAX_RETRIES cfg))
                (S (Z.to_nat (MAX_RETRIES cfg - 0))) 0 (admitted env w))
      as (e & w1 & -> & Hposts); [lia | lia | |].
    { intros k req _. apply Hall. }
    rewrite admitted_posts in Hposts.
    match goal with
    | |- context [processBatches env cfg ?a rest w1] =>
        destruct (IH a w1) as (acc' & w' & -> & Hp)
    end.
    exists acc', w'. split; [reflexivity |]. cbn [List.length]. lia.
Qed.

(** The value [makeRequest] returns is the answer to its last call. *)
Lemma makeRequest_fuel_returns_last (snList : list string) :
  forall (fuel : nat) (retryCount : Z) (w w' : World)
         (d : option (list DeviceReading)),
    makeRequest_fuel env cfg fuel snList retryCount w = Some (Return d, w') ->
    (posts w < posts w')%nat
    /\ exists t,
         respond env (pred (posts w')) (signedRequest cfg path snList t)
         = Resolved d.
Proof.
  induction fuel as [| fuel IH]; intros retryCount w w' d Hrun;
    [discriminate |].
  rewrite (makeRequest_fuel_step env cfg path Hurl) in Hrun.
  cbv zeta in Hrun.
  destruct (respond env (posts w) (signedRequest cfg path snList (clock w)))
    as [d0 | e] eqn:Hresp.
  - injection Hrun as -> <-. cbn. split; [lia |]. now exists (clock w).
  - destruct (isRetryable (ExnAxios e)); [| discriminate].
    destruct (retryCount <? MAX_RETRIES cfg); [| discriminate].
    apply IH in Hrun. cbn in Hrun. destruct Hrun as [Hlt Hex].
    split; [lia | exact Hex].
Qed.

End Parsed.

End DriverOutcomes.

(** X13. With an API URL that parses, [RATE_LIMIT_MS] at most 2147483647
    and a clock that does not read before 0: if no call is rejected with a
    retryable cause, a run issues exactly one network call per batch and
    all its network calls start at least [RATE_LIMIT_MS] apart. *)
Theorem fetchDeviceData_spaced_without_retries (env : Env) (cfg : Config)
    (path : string) (count : Z) (w : World) :
  pathnameOf env (API_URL cfg) = Some path ->
  0 < BATCH_SIZE cfg -> RATE_LIMIT_MS cfg <= TIMEOUT_MAX -> 0 <= clock w ->
  NoRetryable env ->
  exists s w' ts,
    fetchDeviceData env cfg count w = Some (Return s, w')
    /\ postTimes (trace w') = postTimes (trace w) ++ ts
    /\ List.length ts
       = batchCount (generateSerialNumbers count) (BATCH_SIZE cfg)
    /\ posts w'
       = (posts w
          + batchCount (generateSerialNumbers count) (BATCH_SIZE cfg))%nat
    /\ spaced (RATE_LIMIT_MS cfg) ts.
Proof.
  intros Hurl Hsize Hfit Hepoch Hno.
  rewrite fetchDeviceData_eq by assumption. cbv zeta.
  destruct (batches_cover cfg count Hsize) as [_ Hlen]. cbv zeta in Hlen.
  match goal with
  | |- context [processBatches env cfg ?a ?b ?v] =>
      destruct (processBatches_no_retry env cfg path Hurl b Hno a v)
        as (acc' & w' & ts & -> & _ & Hpt & Hts & Hposts & Hsp)
  end.
  rewrite Hlen in Hts, Hposts. cbn in Hpt, Hsp, Hposts.
  eexists. exists w', ts. split; [reflexivity |].
  repeat (split; [assumption |]).
  destruct ts; [exact I | now apply Hsp].
Qed.

Lemma env_ok_NoRetryable : NoRetryable env_ok.
Proof. intros k req e Hresp. discriminate Hresp. Qed.

Lemma fetchDeviceData_spaced_without_retries_witness :
  exists s w' ts,
    fetchDeviceData env_ok CONFIG 25 boot = Some (Return s, w')
    /\ postTimes (trace w') = ts
    /\ List.length ts = 3%nat
    /\ spaced 1000 ts.
Proof.
  destruct (fetchDeviceData_spaced_without_retries env_ok CONFIG
              "/device/real/query" 25 boot)
    as (s & w' & ts & Heq & Hpt & Hlen & _ & Hsp);
    [reflexivity | cbn; lia | cbn; unfold TIMEOUT_MAX; lia | cbn; lia
    | exact env_ok_NoRetryable |].
  exists s, w', ts. split; [exact Heq |]. split; [exact Hpt |].
  split; [exact Hlen | exact Hsp].
Defined.

(** X14. If every call is rejected, for whatever cause, the run still
    completes normally: no identifier is resolved, every identifier is
    counted as failed and the result holds no reading. *)
Theorem fetchDeviceData_all_rejected (env : Env) (cfg : Config)
    (count : Z) (w : World) :
  0 < BATCH_SIZE cfg -> AllRejected env ->
  exists s w',
    fetchDeviceData env cfg count w = Some (Return s, w')
    /\ sum_successCount s = 0
    /\ sum_failureCount s = Z.max 0 count
    /\ data s = [].
Proof.
  intros Hsize Hrej.
  rewrite fetchDeviceData_eq by assumption. cbv zeta.
  destruct (batches_cover cfg count Hsize) as [Hcover _]. cbv zeta in Hcover.
  match goal with
  | |- context [processBatches env cfg ?a ?b ?v] =>
      destruct (processBatches_all_fail env cfg b) with (acc := a) (w := v)
        as (acc' & w' & -> & Hall & Hs & Hf)
  end.
  - intros batch w0 r w1 Hrun rs ->. unfold makeRequest in Hrun.
    apply makeRequest_fuel_returns in Hrun.
    destruct Hrun as (k & req & _ & Hresp).
    destruct (Hrej k req) as (e & He). congruence.
  - rewrite Hcover in Hf. cbn in Hall, Hs, Hf.
    eexists. exists w'. split; [reflexivity |]. cbn.
    repeat split; assumption.
Qed.

Lemma fetchDeviceData_all_rejected_witness :
  exists s w',
    fetchDeviceData (env_always 429) CONFIG 25 boot = Some (Return s, w')
    /\ sum_successCount s = 0
    /\ sum_failureCount s = 25
    /\ data s = [].
Proof.
  apply (fetchDeviceData_all_rejected (env_always 429) CONFIG 25 boot).
  - cbn. lia.
  - intros k req. now exists (http_error 429).
Defined.

(** X15. [successCount] counts requested identifiers, not received
    readings: with an API URL that parses, if every call is answered with
    some list of readings, of whatever length, every identifier is
    reported resolved and none failed. *)
Theorem fetchDeviceData_counts_requests (env : Env) (cfg : Config)
    (path : string) (count : Z) (w : World) :
  pathnameOf env (API_URL cfg) = Some path ->
  0 < BATCH_SIZE cfg -> AllResolved env ->
  exists s w',
    fetchDeviceData env cfg count w = Some (Return s, w')
    /\ sum_successCount s = Z.max 0 count
    /\ sum_failureCount s = 0.
Proof.
  intros Hurl Hsize Hres.
  rewrite fetchDeviceData_eq by assumption. cbv zeta.
  destruct (batches_cover cfg count Hsize) as [Hcover _]. cbv zeta in Hcover.
  match goal with
  | |- context [processBatches env cfg ?a ?b ?v] =>
      destruct (processBatches_all_succeed env cfg b) with (acc := a) (w := v)
        as (acc' & w' & -> & Hs & Hf)
  end.
  - intros batch w0. unfold makeRequest.
    rewrite (makeRequest_fuel_step env cfg path Hurl). cbv zeta.
    destruct (Hres (posts w0) (signedRequest cfg path batch (clock w0)))
      as (rs & ->).
    now eexists _, _.
  - rewrite Hcover in Hs. cbn in Hs, Hf.
    eexists. exists w'. split; [reflexivity |]. cbn. split; assumption.
Qed.

Lemma fetchDeviceData_counts_requests_witness :
  exists s w',
    fetchDeviceData env_silent CONFIG 25 boot = Some (Return s, w')
    /\ sum_successCount s = 25
    /\ sum_failureCount s = 0.
Proof.
  apply (fetchDeviceData_counts_requests env_silent CONFIG
           "/device/real/query" 25 boot).
  - reflexivity.
  - cbn. lia.
  - intros k req. now exists [].
Defined.

(** With an endpoint that accepts every call and reports nothing, 25
    identifiers are reported resolved while the result holds no reading. *)
Example scenario_25_silent :
  tally (fetchDeviceData env_silent CONFIG 25 boot)
  = Some (25, 0, 0%nat, 3%nat).
Proof. vm_compute. reflexivity. Qed.

(** X16. An accepted call whose body has no iterable [data] counts as a
    failure of its batch: with an API URL that parses, if every answer is
    of that kind, every identifier is counted as failed, nothing is
    resolved, and each batch was sent exactly once, without retry. *)
Theorem fetchDeviceData_no_data (env : Env) (cfg : Config)
    (path : string) (count : Z) (w : World) :
  pathnameOf env (API_URL cfg) = Some path ->
  0 < BATCH_SIZE cfg -> NoData env ->
  exists s w',
    fetchDeviceData env cfg count w = Some (Return s, w')
    /\ sum_successCount s = 0
    /\ sum_failureCount s = Z.max 0 count
    /\ data s = []
    /\ posts w'
       = (posts w
          + batchCount (generateSerialNumbers count) (BATCH_SIZE cfg))%nat.
Proof.
  intros Hurl Hsize Hnone.
  assert (Hno : NoRetryable env).
  { intros k req e Hresp. rewrite Hnone in Hresp. discriminate. }
  rewrite fetchDeviceData_eq by assumption. cbv zeta.
  destruct (batches_cover cfg count Hsize) as [Hcover Hlen].
  cbv zeta in Hcover, Hlen.
  match goal with
  | |- context [processBatches env cfg ?a ?b ?v] =>
      destruct (processBatches_no_retry env cfg path Hurl b Hno a v)
        as (acc2 & w2 & ts & Hrun2 & _ & _ & _ & Hposts & _);
      destruct (processBatches_all_fail env cfg b) with (acc := a) (w := v)
        as (acc' & w' & Hrun & Hall & Hs & Hf)
  end.
  - intros batch w0 r w1 Hrun rs ->. unfold makeRequest in Hrun.
    apply makeRequest_fuel_returns in Hrun.
    destruct Hrun as (k & req & _ & Hresp).
    rewrite Hnone in Hresp. discriminate.
  - rewrite Hrun in Hrun2. injection Hrun2 as <- <-. rewrite Hrun.
    rewrite Hcover in Hf. rewrite Hlen in Hposts.
    cbn in Hall, Hs, Hf, Hposts.
    eexists. exists w'. split; [reflexivity |]. cbn.
    repeat split; assumption.
Qed.

Lemma fetchDeviceData_no_data_witness :
  exists s w',
    fetchDeviceData env_no_data CONFIG 25 boot = Some (Return s, w')
    /\ sum_successCount s = 0
    /\ sum_failureCount s = 25
    /\ data s = []
    /\ posts w' = 3%nat.
Proof.
  apply (fetchDeviceData_no_data env_no_data CONFIG
           "/device/real/query" 25 boot).
  - reflexivity.
  - cbn. lia.
  - intros k req. reflexivity.
Defined.

(** X17. With an API URL that parses, if every call is rejected with a
    retryable cause, each batch costs [MAX_RETRIES + 1] network calls
    before it is given up: a run over [k] batches issues
    [k * (MAX_RETRIES + 1)] calls. *)
Theorem fetchDeviceData_retry_cost (env : Env) (cfg : Config)
    (path : string) (count : Z) (w : World) :
  pathnameOf env (API_URL cfg) = Some path ->
  0 < BATCH_SIZE cfg -> 0 <= MAX_RETRIES cfg -> AllRetryable env ->
  exists s w',
    fetchDeviceData env cfg count w = Some (Return s, w')
    /\ posts w'
       = (posts w
          + batchCount (generateSerialNumbers count) (BATCH_SIZE cfg)
            * (Z.to_nat (MAX_RETRIES cfg) + 1))%nat.
Proof.
  intros Hurl Hsize Hmax Hall.
  rewrite fetchDeviceData_eq by assumption. cbv zeta.
  destruct (batches_cover cfg count Hsize) as [_ Hlen]. cbv zeta in Hlen.
  match goal with
  | |- context [processBatches env cfg ?a ?b ?v] =>
      destruct (processBatches_all_retryable env cfg path Hurl b Hmax Hall a v)
        as (acc' & w' & -> & Hposts)
  end.
  rewrite Hlen in Hposts. cbn in Hposts.
  eexists. exists w'. split; [reflexivity | exact Hposts].
Qed.

Lemma fetchDeviceData_retry_cost_witness :
  exists s w',
    fetchDeviceData (env_always 429) CONFIG 25 boot = Some (Return s, w')
    /\ posts w' = 12%nat.
Proof.
  apply (fetchDeviceData_retry_cost (env_always 429) CONFIG
           "/device/real/query" 25 boot).
  - reflexivity.
  - cbn. lia.
  - cbn. lia.
  - intros k req. exists (http_error 429). split; reflexivity.
Defined.

(** X18. [makeRequest] makes nothing up: a value it returns is the answer
    the endpoint gave to the last network call of that request, a call
    made for the given batch, to the path of the API URL, and signed by
    [makeRequest]. *)
Theorem makeRequest_returns_last_answer (env : Env) (cfg : Config)
    (snList : list string) (retryCount : Z) (w w' : World)
    (d : option (list DeviceReading)) :
  makeRequest env cfg snList retryCount w = Some (Return d, w') ->
  (posts w < posts w')%nat
  /\ exists path t,
       pathnameOf env (API_URL cfg) = Some path
       /\ respond env (pred (posts w')) (signedRequest cfg path snList t)
          = Resolved d.
Proof.
  unfold makeRequest. intros Hrun.
  destruct (pathnameOf env (API_URL cfg)) as [path |] eqn:Hurl.
  - destruct (makeRequest_fuel_returns_last env cfg path Hurl snList
                _ _ _ _ _ Hrun) as [Hlt (t & Ht)].
    split; [exact Hlt |]. now exists path, t.
  - rewrite makeRequest_fuel_bad_url in Hrun by assumption. discriminate.
Qed.

Lemma makeRequest_returns_last_answer_witness :
  exists path t,
    pathnameOf (env_failing_first 2 429) (API_URL CONFIG) = Some path
    /\ respond (env_failing_first 2 429) 2
               (signedRequest CONFIG path ["SN-000"] t)
       = Resolved (Some [reading_of "SN-000"]).
Proof.
  destruct (makeRequest_returns_last_answer (env_failing_first 2 429) CONFIG
              ["SN-000"] 0 boot
              {| clock := 1700000004015;
                 queue := {| rateLimitMs := 0; lastRequestTime := 0 |};
                 posts := 3;
                 naps := 2;
                 trace := final_trace
                            (makeRequest (env_failing_first 2 429) CONFIG
                                         ["SN-000"] 0 boot) |}
              (Some [reading_of "SN-000"])) as [_ Hex].
  - vm_compute. reflexivity.
  - exact Hex.
Defined.

(* ------------------------------------------------------------------ *)
(** *** The result object                                               *)

Lemma count_status_bounds (l : list DeviceReading) :
  0 <= count_status "Online" l
  /\ 0 <= count_status "Offline" l
  /\ count_status "Online" l + count_status "Offline" l
     <= Z.of_nat (List.length l)
  /\ (forallb known_status l = true ->
      count_status "Online" l + count_status "Offline" l
      = Z.of_nat (List.length l)).
Proof.
  unfold count_status.
  induction l as [| d l (Hon & Hoff & Hle & Heq)];
    [cbn; repeat split; lia |].
  cbn [filter forallb List.length]. unfold known_status at 1.
  destruct (String.eqb_spec (status d) "Online") as [Hs | Hs].
  - rewrite Hs. cbn [String.eqb Ascii.eqb Bool.eqb orb andb List.length].
    repeat split; try lia. intros Hall. specialize (Heq Hall). lia.
  - destruct (String.eqb_spec (status d) "Offline") as [Hs' | Hs'];
      cbn [orb andb List.length]; repeat split; try lia;
      intros Hall; first [discriminate | specialize (Heq Hall); lia].
Qed.

(** X19. In the result of a completed run, [statistics.online] and
    [statistics.offline] count the readings of [data] whose status is
    exactly ["Online"], respectively ["Offline"]; together they never
    exceed the number of readings and account for all of them when every
    status is one of the two.  The reported total is the population
    size. *)
Theorem fetchDeviceData_statistics (env : Env) (cfg : Config) (count : Z)
    (w w' : World) (s : Summary) :
  fetchDeviceData env cfg count w = Some (Return s, w') ->
  totalDevices s = Z.max 0 count
  /\ online (statistics s)
     = Z.of_nat (List.length
                   (filter (fun d => String.eqb (status d) "Online")
                           (data s)))
  /\ offline (statistics s)
     = Z.of_nat (List.length
                   (filter (fun d => String.eqb (status d) "Offline")
                           (data s)))
  /\ online (statistics s) + offline (statistics s)
     <= Z.of_nat (List.length (data s))
  /\ (forallb known_status (data s) = true ->
      online (statistics s) + offline (statistics s)
      = Z.of_nat (List.length (data s))).
Proof.
  unfold fetchDeviceData. intros Hrun.
  destruct (createBatches (generateSerialNumbers count) (BATCH_SIZE cfg))
    as [batches |]; [| discriminate].
  unfold bind, newQueue, Date_now, ret in Hrun.
  destruct (processBatches env cfg _ batches _) as [[[acc | e] w1] |];
    try discriminate.
  injection Hrun as <- _. cbn.
  destruct (count_status_bounds (allResults acc)) as (_ & _ & Hle & Heq).
  split; [apply generateSerialNumbers_length |].
  split; [reflexivity |]. split; [reflexivity |].
  split; [exact Hle | exact Heq].
Qed.

Lemma fetchDeviceData_statistics_witness :
  let s := summaryOf 25
             {| allResults := map reading_of (generateSerialNumbers 25);
                successCount := 25;
                failureCount := 0 |}
             1700000000000 1700000002005 in
  online (statistics s) + offline (statistics s)
  <= Z.of_nat (List.length (data s)).
Proof.
  intros s.
  destruct (fetchDeviceData_statistics env_ok CONFIG 25 boot
              {| clock := 1700000002005;
                 queue := {| rateLimitMs := 1000;
                             lastRequestTime := 1700000002000 |};
                 posts := 3;
                 naps := 2;
                 trace := final_trace (fetchDeviceData env_ok CONFIG 25 boot) |}
              s) as (_ & _ & _ & Hle & _).
  - vm_compute. reflexivity.
  - exact Hle.
Defined.

(** X20. With no device to query ([count <= 0]) the run completes at once
    whatever the configuration, batch size included: no network call, no
    timer, a result of zeros and a duration of 0; only the queue object is
    new. *)
Theorem fetchDeviceData_empty_population (env : Env) (cfg : Config)
    (count : Z) (w : World) :
  count <= 0 ->
  fetchDeviceData env cfg count w
  = Some (Return (summaryOf 0
                    {| allResults := []; successCount := 0;
                       failureCount := 0 |}
                    (clock w) (clock w)),
          withNewQueue (RATE_LIMIT_MS cfg) w).
Proof.
  intros Hcount. unfold fetchDeviceData, generateSerialNumbers.
  replace (Z.to_nat count) with 0%nat by lia. reflexivity.
Qed.

Lemma fetchDeviceData_empty_population_witness :
  tally (fetchDeviceData (env_always 429)
           {| API_URL := API_URL CONFIG; TOKEN := TOKEN CONFIG;
              RATE_LIMIT_MS := 1000; BATCH_SIZE := 0;
              MAX_RETRIES := 3; RETRY_DELAY_MS := 2000 |}
           0 boot)
  = Some (0, 0, 0%nat, 0%nat).
Proof.
  rewrite fetchDeviceData_empty_population by lia. reflexivity.
Defined.

(** X21. With a batch size of zero or less and at least one device, the
    run never gets past batching: the loop of [createBatches] outlives any
    amount of fuel, so [fetchAllDeviceData] neither returns nor throws,
    and no network call is ever made. *)
Theorem fetchDeviceData_bad_batch_size (env : Env) (cfg : Config)
    (count : Z) (w : World) :
  BATCH_SIZE cfg <= 0 -> 0 < count ->
  (forall fuel,
     createBatches_fuel fuel (generateSerialNumbers count) (BATCH_SIZE cfg)
     = None)
  /\ fetchDeviceData env cfg count w = None.
Proof.
  intros Hsize Hcount.
  assert (Hloop : forall fuel,
            createBatches_fuel fuel (generateSerialNumbers count)
                               (BATCH_SIZE cfg) = None).
  { intros fuel. apply createBatches_loop_None; [assumption | | lia].
    intros Hnil. pose proof (generateSerialNumbers_length count) as Hlen.
    rewrite Hnil in Hlen. cbn in Hlen. lia. }
  split; [exact Hloop |].
  unfold fetchDeviceData, createBatches. now rewrite Hloop.
Qed.

Lemma fetchDeviceData_bad_batch_size_witness :
  fetchDeviceData env_ok
    {| API_URL := API_URL CONFIG; TOKEN := TOKEN CONFIG;
       RATE_LIMIT_MS := 1000; BATCH_SIZE := 0;
       MAX_RETRIES := 3; RETRY_DELAY_MS := 2000 |}
    500 boot
  = None.
Proof.
  apply fetchDeviceData_bad_batch_size; cbn; lia.
Defined.

(** X22. Where the URL parser rejects the API URL, [new URL] throws a
    [TypeError] on line 52, outside the [try]: [makeRequest] throws it at
    once, with no network call, no retry and no timer.  The driver catches
    it per batch, so a run still completes, with every identifier counted
    as failed and nothing sent. *)
Theorem fetchDeviceData_unparsable_url (env : Env) (cfg : Config)
    (count : Z) (w : World) :
  pathnameOf env (API_URL cfg) = None ->
  0 < BATCH_SIZE cfg ->
  (forall snList retryCount w0,
     makeRequest env cfg snList retryCount w0
     = Some (Throw (ExnTypeError "Invalid URL"), w0))
  /\ exists s w',
       fetchDeviceData env cfg count w = Some (Return s, w')
       /\ sum_successCount s = 0
       /\ sum_failureCount s = Z.max 0 count
       /\ data s = []
       /\ posts w' = posts w
       /\ postsOf (trace w') = postsOf (trace w).
Proof.
  intros Hurl Hsize.
  assert (Hthrow : forall snList retryCount w0,
            makeRequest env cfg snList retryCount w0
            = Some (Throw (ExnTypeError "Invalid URL"), w0)).
  { intros snList retryCount w0. unfold makeRequest.
    now apply makeRequest_fuel_bad_url. }
  split; [exact Hthrow |].
  rewrite fetchDeviceData_eq by assumption. cbv zeta.
  destruct (batches_cover cfg count Hsize) as [Hcover _]. cbv zeta in Hcover.
  match goal with
  | |- context [processBatches env cfg ?a ?b ?v] =>
      destruct (processBatches_bad_url env cfg b Hurl a v)
        as (acc2 & w2 & Hrun2 & Hposts & Htrace);
      destruct (processBatches_all_fail env cfg b) with (acc := a) (w := v)
        as (acc' & w' & Hrun & Hall & Hs & Hf)
  end.
  - intros batch w0 r w1 Hrun rs ->. rewrite Hthrow in Hrun. discriminate.
  - rewrite Hrun in Hrun2. injection Hrun2 as <- <-. rewrite Hrun.
    rewrite Hcover in Hf. cbn in Hall, Hs, Hf, Hposts, Htrace.
    eexists. exists w'. split; [reflexivity |]. cbn.
    repeat split; assumption.
Qed.

Lemma fetchDeviceData_unparsable_url_witness :
  exists s w',
    fetchDeviceData env_bad_url CONFIG 25 boot = Some (Return s, w')
    /\ sum_successCount s = 0
    /\ sum_failureCount s = 25
    /\ data s = []
    /\ posts w' = 0%nat.
Proof.
  destruct (fetchDeviceData_unparsable_url env_bad_url CONFIG 25 boot)
    as (_ & s & w' & Heq & Hs & Hf & Hd & Hp & _);
    [reflexivity | cbn; lia |].
  exists s, w'. repeat split; assumption.
Defined.

(** On such a platform the 25-device run sends nothing and reports 25
    failures. *)
Example scenario_25_bad_url :
  tally (fetchDeviceData env_bad_url CONFIG 25 boot)
  = Some (0, 25, 0%nat, 0%nat).
Proof. vm_compute. reflexivity. Qed.
